(** * StoryVoice-AI: the Gemini gateway of [src/services/geminiService.ts]

    A shallow embedding of the four exported operations ([generateSpeech],
    [generateStoryboard], [generateSceneImage], [checkImageForCharacter]) and
    of the helper [getClient], together with the JavaScript built-ins they
    rely on ([String.prototype.split], [match], [replace], [trim],
    [JSON.parse], truthiness).

    JavaScript strings are sequences of UTF-16 code units; they are modelled
    as lists of code units so that the regular expression [.] and [trim] see
    exactly the characters the engine sees. *)

From Stdlib Require Import List NArith ZArith Bool String Ascii Lia.
Import ListNotations.

Set Implicit Arguments.

(** ** JavaScript strings *)

Definition jsstring := list N.

(** An ASCII literal of the source as a list of code units. *)
Fixpoint lit (s : string) : jsstring :=
  match s with
  | EmptyString => []
  | String a r => N_of_ascii a :: lit r
  end.

Definition comma : N := 44.
Definition colon : N := 58.
Definition semicolon : N := 59.
Definition backtick : N := 96.
Definition dquote : N := 34.
Definition backslash : N := 92.

(** Truthiness of a string value: only the empty string is falsy. *)
Definition truthy (s : jsstring) : bool :=
  match s with
  | [] => false
  | _ :: _ => true
  end.

(** Truthiness of [string | undefined]. *)
Definition truthyOpt (o : option jsstring) : bool :=
  match o with
  | Some s => truthy s
  | None => false
  end.

(** [o || d] where [o : string | undefined] and [d : string]. *)
Definition orElse (o : option jsstring) (d : jsstring) : jsstring :=
  match o with
  | Some s => if truthy s then s else d
  | None => d
  end.

(** [arr?.[0]] on an optional array. *)
Definition first {A : Type} (arr : option (list A)) : option A :=
  match arr with
  | Some (x :: _) => Some x
  | _ => None
  end.

(** [s.split(sep)] for a separator of one code unit. The result always has
    at least one piece; the empty string splits into one empty piece. *)
Fixpoint split (sep : N) (s : jsstring) : list jsstring :=
  match s with
  | [] => [[]]
  | c :: r =>
      if (c =? sep)%N then [] :: split sep r
      else match split sep r with
           | h :: t => (c :: h) :: t
           | [] => [[c]]
           end
  end.

(** Line terminators: the code units the regular expression [.] refuses
    (no [s] flag, no [u] flag). *)
Definition isLineTerminator (c : N) : bool :=
  ((c =? 10) || (c =? 13) || (c =? 8232) || (c =? 8233))%N.

(** The tail [(.*?);] of the pattern, tried right after a [:]. The lazy star
    stops at the first [;]; it cannot step over a line terminator. The
    result is capture group 1. *)
Fixpoint lazyUntilSemicolon (s : jsstring) : option jsstring :=
  match s with
  | [] => None
  | c :: r =>
      if (c =? semicolon)%N then Some []
      else if isLineTerminator c then None
      else option_map (cons c) (lazyUntilSemicolon r)
  end.

(** [header.match(/:(.*?);/)?.[1]]: the leftmost position where the pattern
    matches, and there group 1; [None] when [match] returns [null]. *)
Fixpoint matchMime (s : jsstring) : option jsstring :=
  match s with
  | [] => None
  | c :: r =>
      if (c =? colon)%N then
        match lazyUntilSemicolon r with
        | Some g => Some g
        | None => matchMime r
        end
      else matchMime r
  end.

Definition image_png : jsstring := lit "image/png".

(** Lines 112-113 and 166-167:
    [const [header, base64Data] = img.split(',');]
    [const mimeType = header.match(/:(.*?);/)?.[1] || 'image/png';]
    [base64Data] is [undefined] when the string has no comma. *)
Definition splitDataUri (img : jsstring) : jsstring * option jsstring :=
  let pieces := split comma img in
  let header := nth 0 pieces [] in
  let base64Data := nth_error pieces 1 in
  let mimeType := orElse (matchMime header) image_png in
  (mimeType, base64Data).

Fixpoint startsWith (pat s : jsstring) : bool :=
  match pat, s with
  | [], _ => true
  | _ :: _, [] => false
  | p :: pat', c :: s' => (p =? c)%N && startsWith pat' s'
  end.

(** [s.replace(/pat/g, rep)] for a pattern that is a non-empty literal:
    matches are found left to right and do not overlap. [skip] counts the
    code units of the current match that are still to be stepped over. *)
Fixpoint replaceFrom (pat rep : jsstring) (skip : nat) (s : jsstring) : jsstring :=
  match s with
  | [] => []
  | c :: r =>
      match skip with
      | S k => replaceFrom pat rep k r
      | O =>
          if startsWith pat s
          then rep ++ replaceFrom pat rep (List.length pat - 1) r
          else c :: replaceFrom pat rep 0 r
      end
  end.

Definition replaceAll (pat rep s : jsstring) : jsstring := replaceFrom pat rep 0 s.

(** White space and line terminators removed by [trim]. *)
Definition isTrimSpace (c : N) : bool :=
  ((9 <=? c) && (c <=? 13) || (c =? 32) || (c =? 160) || (c =? 5760)
   || (8192 <=? c) && (c <=? 8202) || (c =? 8232) || (c =? 8233)
   || (c =? 8239) || (c =? 8287) || (c =? 12288) || (c =? 65279))%N.

Fixpoint trimStart (s : jsstring) : jsstring :=
  match s with
  | [] => []
  | c :: r => if isTrimSpace c then trimStart r else s
  end.

Definition trimEnd (s : jsstring) : jsstring := rev (trimStart (rev s)).

Definition trim (s : jsstring) : jsstring := trimEnd (trimStart s).

Definition fence_json : jsstring := lit "```json".
Definition fence : jsstring := lit "```".

(** Line 95: [textResponse.replace(/```json/g, '').replace(/```/g, '').trim()]. *)
Definition cleanFences (textResponse : jsstring) : jsstring :=
  trim (replaceAll fence [] (replaceAll fence_json [] textResponse)).

(** ** Values exchanged with the SDK *)

(** [inlineData] of a part: both fields are optional in the SDK's types. *)
Record Blob := mkBlob {
  data : option jsstring;
  mimeType : option jsstring
}.

Record Part := mkPart {
  inlineData : option Blob;
  text : option jsstring
}.

Record Content := mkContent {
  parts : option (list Part)
}.

Record Candidate := mkCandidate {
  content : option Content
}.

(** What the code reads of a [GenerateContentResponse]: the candidates and
    the [text] accessor. *)
Record GenerateContentResponse := mkResponse {
  candidates : option (list Candidate);
  response_text : option jsstring
}.

Definition inlinePart (mime : option jsstring) (d : option jsstring) : Part :=
  {| inlineData := Some {| data := d; mimeType := mime |}; text := None |}.

Definition textPart (t : jsstring) : Part :=
  {| inlineData := None; text := Some t |}.

(** [part.inlineData && part.inlineData.data]: the payload when it is
    truthy. *)
Definition inlinePayload (p : Part) : option jsstring :=
  match inlineData p with
  | Some b => match data b with
              | Some d => if truthy d then Some d else None
              | None => None
              end
  | None => None
  end.

(** Thrown values. *)
Inductive Exn :=
| Error (message : jsstring)
| SyntaxError
| TypeError
| ApiError (status : N) (message : jsstring).

Definition missingKeyMessage : jsstring :=
  lit "API Key is missing. Please provide a key in settings or .env".

(** The outcome of a call: a value, or a thrown exception (a rejected
    promise for the asynchronous operations). *)
Inductive Result (A : Type) :=
| Return (a : A)
| Throw (e : Exn).

Arguments Return {A} a.
Arguments Throw {A} e.

(** ** JSON values and [JSON.parse] *)

(** The exact value a JSON number literal denotes:
    [(-1)^neg * mant * 10^exp10]. *)
Record Decimal := mkDecimal {
  neg : bool;
  mant : N;
  exp10 : Z
}.

#[warnings="-register-all"]
Inductive JSON :=
| JNull
| JBool (b : bool)
| JNumber (d : Decimal)
| JString (s : jsstring)
| JArray (items : list JSON)
| JObject (members : list (jsstring * JSON)).

(** A literal becomes the nearest double. It becomes (plus or minus) zero
    exactly when its magnitude is at most [2^-1075], half the least
    positive double (a tie goes to the even neighbour, zero). *)
Definition roundsToZero (d : Decimal) : bool :=
  if (mant d =? 0)%N then true
  else if (0 <=? exp10 d)%Z then false
  else (Z.of_N (mant d) * 2 ^ 1075 <=? 10 ^ (- exp10 d))%Z.

(** [!!v] for a parsed value or [undefined] ([None]). *)
Definition toBoolean (v : option JSON) : bool :=
  match v with
  | None => false
  | Some JNull => false
  | Some (JBool b) => b
  | Some (JNumber d) => negb (roundsToZero d)
  | Some (JString s) => truthy s
  | Some (JArray _) => true
  | Some (JObject _) => true
  end.

Fixpoint jsstring_eqb (a b : jsstring) : bool :=
  match a, b with
  | [], [] => true
  | x :: a', y :: b' => (x =? y)%N && jsstring_eqb a' b'
  | _, _ => false
  end.

(** Members are kept in source order; a repeated key is overwritten by its
    last occurrence. *)
Fixpoint lookupMember (name : jsstring) (ms : list (jsstring * JSON)) : option JSON :=
  match ms with
  | [] => None
  | (k, v) :: r =>
      match lookupMember name r with
      | Some v' => Some v'
      | None => if jsstring_eqb k name then Some v else None
      end
  end.

(** [json.name] for a name no prototype defines (as [hasCharacter]):
    reading a property of [null] throws a [TypeError], an object gives its
    member or [undefined], every other value gives [undefined]. *)
Definition getMember (json : JSON) (name : jsstring) : Result (option JSON) :=
  match json with
  | JNull => Throw TypeError
  | JObject ms => Return (lookupMember name ms)
  | _ => Return None
  end.

Definition isJsonSpace (c : N) : bool :=
  ((c =? 9) || (c =? 10) || (c =? 13) || (c =? 32))%N.

Fixpoint skipWs (s : jsstring) : jsstring :=
  match s with
  | [] => []
  | c :: r => if isJsonSpace c then skipWs r else s
  end.

Definition isDigit (c : N) : bool := ((48 <=? c) && (c <=? 57))%N.

Fixpoint takeDigits (s : jsstring) : jsstring * jsstring :=
  match s with
  | [] => ([], [])
  | c :: r =>
      if isDigit c then let (ds, rest) := takeDigits r in (c :: ds, rest)
      else ([], s)
  end.

Definition digitsValue (ds : jsstring) : N :=
  fold_left (fun acc d => (acc * 10 + (d - 48))%N) ds 0%N.

Definition hexValue (c : N) : option N :=
  if isDigit c then Some (c - 48)%N
  else if ((97 <=? c) && (c <=? 102))%N then Some (c - 87)%N
  else if ((65 <=? c) && (c <=? 70))%N then Some (c - 55)%N
  else None.

Definition hex4 (a b c d : N) : option N :=
  match hexValue a, hexValue b, hexValue c, hexValue d with
  | Some x, Some y, Some z, Some w => Some (((x * 16 + y) * 16 + z) * 16 + w)%N
  | _, _, _, _ => None
  end.

(** The character after a backslash, other than [u]. *)
Definition unescape (e : N) : option N :=
  if (e =? 34)%N then Some 34%N
  else if (e =? 92)%N then Some 92%N
  else if (e =? 47)%N then Some 47%N
  else if (e =? 98)%N then Some 8%N
  else if (e =? 102)%N then Some 12%N
  else if (e =? 110)%N then Some 10%N
  else if (e =? 114)%N then Some 13%N
  else if (e =? 116)%N then Some 9%N
  else None.

(** The characters of a string after its opening quote, up to and
    including the closing quote. [acc] holds the decoded characters in
    reverse. *)
Fixpoint parseStringChars (s acc : jsstring) : option (jsstring * jsstring) :=
  match s with
  | [] => None
  | c :: r =>
      if (c =? dquote)%N then Some (rev acc, r)
      else if (c =? backslash)%N then
        match r with
        | [] => None
        | e :: r' =>
            if (e =? 117)%N then
              match r' with
              | h1 :: h2 :: h3 :: h4 :: r'' =>
                  match hex4 h1 h2 h3 h4 with
                  | Some u => parseStringChars r'' (u :: acc)
                  | None => None
                  end
              | _ => None
              end
            else
              match unescape e with
              | Some u => parseStringChars r' (u :: acc)
              | None => None
              end
        end
      else if (c <? 32)%N then None
      else parseStringChars r (c :: acc)
  end.

(** The optional minus sign of a number. *)
Definition numberSign (s : jsstring) : bool * jsstring :=
  match s with
  | c :: r => if (c =? 45)%N then (true, r) else (false, s)
  | [] => (false, s)
  end.

(** The integer part: a single zero, or a non-zero digit and any digits. *)
Definition numberInt (s : jsstring) : option (jsstring * jsstring) :=
  match s with
  | c :: r =>
      if (c =? 48)%N then Some ([c], r)
      else if isDigit c then Some (takeDigits s)
      else None
  | [] => None
  end.

(** The optional fraction: a point and one or more digits. *)
Definition numberFrac (s : jsstring) : option (jsstring * jsstring) :=
  match s with
  | c :: r =>
      if (c =? 46)%N then
        match takeDigits r with
        | ([], _) => None
        | (fds, r') => Some (fds, r')
        end
      else Some ([], s)
  | [] => Some ([], s)
  end.

(** The optional exponent: [e] or [E], an optional sign, one or more
    digits. *)
Definition numberExp (s : jsstring) : option (Z * jsstring) :=
  match s with
  | c :: r =>
      if ((c =? 101) || (c =? 69))%N then
        let (eneg, r1) :=
          match r with
          | g :: r' =>
              if (g =? 45)%N then (true, r')
              else if (g =? 43)%N then (false, r')
              else (false, r)
          | [] => (false, r)
          end in
        match takeDigits r1 with
        | ([], _) => None
        | (eds, r2) =>
            let e := Z.of_N (digitsValue eds) in
            Some ((if eneg then - e else e)%Z, r2)
        end
      else Some (0%Z, s)
  | [] => Some (0%Z, s)
  end.

(** A number literal and the exact value it denotes. *)
Definition parseNumber (s : jsstring) : option (Decimal * jsstring) :=
  let (sign, s1) := numberSign s in
  match numberInt s1 with
  | None => None
  | Some (ids, s2) =>
      match numberFrac s2 with
      | None => None
      | Some (fds, s3) =>
          match numberExp s3 with
          | None => None
          | Some (e, s4) =>
              Some ({| neg := sign;
                       mant := digitsValue (ids ++ fds);
                       exp10 := (e - Z.of_nat (List.length fds))%Z |}, s4)
          end
      end
  end.

Inductive PResult (A : Type) :=
| POk (a : A) (rest : jsstring)
| PSyntax
| PFuel.

Arguments POk {A} a rest.
Arguments PSyntax {A}.
Arguments PFuel {A}.

Definition lbrace : N := 123.
Definition rbrace : N := 125.
Definition lbracket : N := 91.
Definition rbracket : N := 93.

(** Recursive descent over the JSON grammar. [parseValue] reads one value
    after optional white space; [parseElements] reads the elements of an
    array after [[] or [,]; [parseMembers] reads the members of an object
    after [{] or [,]. Each call spends one unit of fuel. *)
Fixpoint parseValue (fuel : nat) (s : jsstring) : PResult JSON :=
  match fuel with
  | O => PFuel
  | S f =>
      match skipWs s with
      | [] => PSyntax
      | c :: r =>
          if (c =? lbrace)%N then
            match skipWs r with
            | c' :: r' =>
                if (c' =? rbrace)%N then POk (JObject []) r'
                else parseMembers f r []
            | [] => PSyntax
            end
          else if (c =? lbracket)%N then
            match skipWs r with
            | c' :: r' =>
                if (c' =? rbracket)%N then POk (JArray []) r'
                else parseElements f r []
            | [] => PSyntax
            end
          else if (c =? dquote)%N then
            match parseStringChars r [] with
            | Some (str, r') => POk (JString str) r'
            | None => PSyntax
            end
          else if startsWith (lit "true") (c :: r) then POk (JBool true) (skipn 3 r)
          else if startsWith (lit "false") (c :: r) then POk (JBool false) (skipn 4 r)
          else if startsWith (lit "null") (c :: r) then POk JNull (skipn 3 r)
          else
            match parseNumber (c :: r) with
            | Some (d, r') => POk (JNumber d) r'
            | None => PSyntax
            end
      end
  end
with parseElements (fuel : nat) (s : jsstring) (acc : list JSON) : PResult JSON :=
  match fuel with
  | O => PFuel
  | S f =>
      match parseValue f s with
      | POk v rest =>
          match skipWs rest with
          | c :: r =>
              if (c =? comma)%N then parseElements f r (v :: acc)
              else if (c =? rbracket)%N then POk (JArray (rev (v :: acc))) r
              else PSyntax
          | [] => PSyntax
          end
      | PSyntax => PSyntax
      | PFuel => PFuel
      end
  end
with parseMembers (fuel : nat) (s : jsstring) (acc : list (jsstring * JSON)) : PResult JSON :=
  match fuel with
  | O => PFuel
  | S f =>
      match skipWs s with
      | c :: r =>
          if (c =? dquote)%N then
            match parseStringChars r [] with
            | Some (k, r1) =>
                match skipWs r1 with
                | c2 :: r2 =>
                    if (c2 =? colon)%N then
                      match parseValue f r2 with
                      | POk v rest =>
                          match skipWs rest with
                          | c3 :: r3 =>
                              if (c3 =? comma)%N then parseMembers f r3 ((k, v) :: acc)
                              else if (c3 =? rbrace)%N then POk (JObject (rev ((k, v) :: acc))) r3
                              else PSyntax
                          | [] => PSyntax
                          end
                      | PSyntax => PSyntax
                      | PFuel => PFuel
                      end
                    else PSyntax
                | [] => PSyntax
                end
            | None => PSyntax
            end
          else PSyntax
      | [] => PSyntax
      end
  end.

Definition parseFuel (s : jsstring) : nat := S (2 * List.length s).

(** [JSON.parse(text)]: one value, white space around it, nothing else; a
    [SyntaxError] otherwise. The fuel given always suffices
    ([parseValue_fuel] below), so the last branch is never taken. *)
Definition JSON_parse (text : jsstring) : Result JSON :=
  match parseValue (parseFuel text) text with
  | POk v rest =>
      match skipWs rest with
      | [] => Return v
      | _ :: _ => Throw SyntaxError
      end
  | PSyntax => Throw SyntaxError
  | PFuel => Throw SyntaxError
  end.

(** ** The gateway *)

(** The client object: all the code gives it is the resolved key. *)
Record GoogleGenAI := mkClient {
  apiKey : jsstring
}.

Inductive Modality := MODALITY_UNSPECIFIED | TEXT | IMAGE | AUDIO.

(** [responseSchema], as far as lines 73-89 use it. *)
#[warnings="-register-all"]
Inductive Schema :=
| SchemaString (description : jsstring)
| SchemaObject (properties : list (jsstring * Schema)) (required : list jsstring)
| SchemaArray (items : Schema).

Section Gateway.

(** [VoiceName] is declared in [../types]; the gateway passes its values
    through untouched. *)
Variable VoiceName : Type.

(** [process.env.API_KEY] when the module is loaded. *)
Variable API_KEY : option jsstring.

Record Config := mkConfig {
  systemInstruction : option jsstring;
  responseModalities : option (list Modality);
  speechConfig : option VoiceName;
  responseMimeType : option jsstring;
  responseSchema : option Schema;
  imageConfig : option jsstring
}.

(** [contents] of a request: a string, one content, or a list of them. *)
Inductive Contents :=
| ContentsText (t : jsstring)
| ContentsOne (c : Content)
| ContentsMany (cs : list Content).

Record Request := mkRequest {
  model : jsstring;
  contents : Contents;
  config : Config
}.

(** What the service answers to a request made through a client: a
    response, or a rejection. *)
Variable remote : GoogleGenAI -> Request -> Result GenerateContentResponse.

(** What an operation does besides computing its result. *)
Inductive Event :=
| EvConstruct (key : jsstring)
| EvGenerateContent (ai : GoogleGenAI) (req : Request)
| EvConsoleError (label : jsstring) (e : Exn).

(** An operation yields the events it performed, in order, and its
    outcome. *)
Definition M (A : Type) : Type := list Event * Result A.

Definition ret {A : Type} (a : A) : M A := ([], Return a).

Definition throw {A : Type} (e : Exn) : M A := ([], Throw e).

Definition bind {A B : Type} (m : M A) (k : A -> M B) : M B :=
  match m with
  | (evs, Return a) => let (evs', r) := k a in (evs ++ evs', r)
  | (evs, Throw e) => (evs, Throw e)
  end.

(** [try { m } catch (e) { handler e }] *)
Definition tryCatch {A : Type} (m : M A) (handler : Exn -> M A) : M A :=
  match m with
  | (evs, Return a) => (evs, Return a)
  | (evs, Throw e) => let (evs', r) := handler e in (evs ++ evs', r)
  end.

(** A synchronous result (a built-in that may throw) inside [M]. *)
Definition liftResult {A : Type} (r : Result A) : M A := ([], r).

Definition construct (key : jsstring) : M GoogleGenAI :=
  ([EvConstruct key], Return {| apiKey := key |}).

(** [await ai.models.generateContent(req)] *)
Definition generateContent (ai : GoogleGenAI) (req : Request)
  : M GenerateContentResponse :=
  ([EvGenerateContent ai req], remote ai req).

Definition consoleError (label : jsstring) (e : Exn) : M unit :=
  ([EvConsoleError label e], Return tt).

Definition events {A : Type} (m : M A) : list Event := fst m.
Definition outcome {A : Type} (m : M A) : Result A := snd m.

Notation "x <- m ;; k" := (bind m (fun x => k))
  (at level 61, m at next level, right associativity).
Notation "m ;;; k" := (bind m (fun _ => k))
  (at level 61, right associativity).

(** Line 5: [const ENV_API_KEY = process.env.API_KEY || '';] *)
Definition ENV_API_KEY : jsstring := orElse API_KEY [].

(** Lines 7-13. *)
Definition getClient (apiKey : option jsstring) : M GoogleGenAI :=
  let key := orElse apiKey ENV_API_KEY in
  if negb (truthy key) then throw (Error missingKeyMessage)
  else construct key.

(** Lines 38-45: [response.candidates?.[0]], then
    [candidate?.content?.parts?.[0]], then the test of line 41. *)
Definition speechOfResponse (response : GenerateContentResponse)
  : option jsstring :=
  let candidate := first (candidates response) in
  let audioPart :=
    match candidate with
    | Some c => match content c with
                | Some ct => first (parts ct)
                | None => None
                end
    | None => None
    end in
  match audioPart with
  | Some p => inlinePayload p
  | None => None
  end.

(** Lines 24-36: the request of [generateSpeech]. *)
Definition speechRequest (text : jsstring) (voice : VoiceName)
    (stylePrompt : jsstring) : Request :=
  {| model := lit "gemini-2.5-flash-preview-tts";
     contents := ContentsMany [ {| parts := Some [textPart text] |} ];
     config := {| systemInstruction := Some stylePrompt;
                  responseModalities := Some [AUDIO];
                  speechConfig := Some voice;
                  responseMimeType := None;
                  responseSchema := None;
                  imageConfig := None |} |}.

(** Lines 15-50. The result is [string | null]. *)
Definition generateSpeech (text : jsstring) (voice : VoiceName)
    (stylePrompt : jsstring) (apiKey : option jsstring) : M (option jsstring) :=
  ai <- getClient apiKey ;;
  tryCatch
    (response <- generateContent ai (speechRequest text voice stylePrompt) ;;
     ret (speechOfResponse response))
    (fun error =>
       consoleError (lit "Error generating speech:") error ;;;
       throw error).

Definition storyboardInstruction : jsstring :=
  lit "You are an expert storyboard artist and video director. Your task is to split the provided story into a highly granular sequence of scenes for a dynamic video.

CRITICAL RULE: Create a separate scene for EVERY SINGLE SENTENCE.
- Do NOT group multiple sentences into one scene.
- If a sentence is very long or complex, you may even split it into two scenes.
- The goal is to ensure the visual image changes frequently (every few seconds) to keep the viewer engaged.
- Never allow a single image to remain on screen for a long paragraph.

For each scene:
1. Extract the exact text segment (usually just one sentence).
2. Write a highly detailed, cinematic image generation prompt that visualizes that specific moment, suitable for vertical video (9:16 format), including camera angles, lighting, and mood.
3. Ensure visual consistency across prompts (e.g. if the main character is wearing a red cloak in scene 1, ensure they are described similarly in scene 2).".

Definition storyboardSchema : Schema :=
  SchemaArray
    (SchemaObject
       [ (lit "narrativeText",
          SchemaString (lit "The specific sentence or phrase from the original text for this scene."));
         (lit "imagePrompt",
          SchemaString (lit "A detailed visual description of the scene suitable for an image generation model.")) ]
       [ lit "narrativeText"; lit "imagePrompt" ]).

(** Lines 93-97. [as StoryboardSegment[]] is erased at run time: the
    result is whatever [JSON.parse] returns. *)
Definition storyboardOfResponse (response : GenerateContentResponse)
  : Result JSON :=
  let textResponse := orElse (response_text response) (lit "[]") in
  let cleanedText := cleanFences textResponse in
  JSON_parse cleanedText.

(** Lines 56-91: the request of [generateStoryboard]. *)
Definition storyboardRequest (fullText : jsstring) : Request :=
  {| model := lit "gemini-2.5-flash";
     contents := ContentsText fullText;
     config := {| systemInstruction := Some storyboardInstruction;
                  responseModalities := None;
                  speechConfig := None;
                  responseMimeType := Some (lit "application/json");
                  responseSchema := Some storyboardSchema;
                  imageConfig := None |} |}.

(** Lines 52-102. *)
Definition generateStoryboard (fullText : jsstring) (apiKey : option jsstring)
  : M JSON :=
  ai <- getClient apiKey ;;
  tryCatch
    (response <- generateContent ai (storyboardRequest fullText) ;;
     liftResult (storyboardOfResponse response))
    (fun error =>
       consoleError (lit "Error generating storyboard:") error ;;;
       throw error).

Definition styleInstruction : jsstring :=
  lit "Adopt the artistic style, color palette, and mood of the reference image provided above. Generate a new scene based on this description: ".

(** Lines 107-128: the parts of the request. *)
Definition sceneImageParts (prompt : jsstring)
    (referenceImageBase64 : option jsstring) : list Part :=
  match referenceImageBase64 with
  | Some ref =>
      if truthy ref then
        let (mimeType, base64Data) := splitDataUri ref in
        [ inlinePart (Some mimeType) base64Data;
          textPart (styleInstruction ++ prompt) ]
      else [ textPart prompt ]
  | None => [ textPart prompt ]
  end.

(** [response.candidates?.[0]?.content?.parts || []] *)
Definition responseParts (response : GenerateContentResponse) : list Part :=
  match first (candidates response) with
  | Some c => match content c with
              | Some ct => match parts ct with
                           | Some ps => ps
                           | None => []
                           end
              | None => []
              end
  | None => []
  end.

(** Line 146: the data-URI built from a part's inline data. *)
Definition dataUri (mime : option jsstring) (payload : jsstring) : jsstring :=
  lit "data:" ++ orElse mime image_png ++ lit ";base64," ++ payload.

(** Lines 144-150: the loop over the parts, leaving at the first part whose
    inline data is truthy; [null] when the loop ends. *)
Fixpoint firstImage (ps : list Part) : option jsstring :=
  match ps with
  | [] => None
  | part :: rest =>
      match inlineData part with
      | Some b =>
          match data b with
          | Some d => if truthy d then Some (dataUri (mimeType b) d)
                      else firstImage rest
          | None => firstImage rest
          end
      | None => firstImage rest
      end
  end.

(** Lines 131-142: the request of [generateSceneImage]; [imageConfig]
    holds the aspect ratio. *)
Definition sceneImageRequest (parts : list Part) : Request :=
  {| model := lit "gemini-2.5-flash-image";
     contents := ContentsOne {| parts := Some parts |};
     config := {| systemInstruction := None;
                  responseModalities := None;
                  speechConfig := None;
                  responseMimeType := None;
                  responseSchema := None;
                  imageConfig := Some (lit "9:16") |} |}.

(** Lines 104-155. *)
Definition generateSceneImage (prompt : jsstring)
    (referenceImageBase64 : option jsstring) (apiKey : option jsstring)
  : M (option jsstring) :=
  ai <- getClient apiKey ;;
  let parts := sceneImageParts prompt referenceImageBase64 in
  tryCatch
    (response <- generateContent ai (sceneImageRequest parts) ;;
     ret (firstImage (responseParts response)))
    (fun error =>
       consoleError (lit "Error generating scene image:") error ;;;
       throw error).

Definition characterQuestion : jsstring :=
  lit "Analyze this image. Does it contain a visible person, character, skeleton, or humanoid figure that serves as the main subject? Answer with JSON: {"
  ++ [dquote] ++ lit "hasCharacter" ++ [dquote] ++ lit ": boolean}".

(** Lines 183-187. *)
Definition characterOfResponse (response : GenerateContentResponse)
  : M bool :=
  match response_text response with
  | None => ret true
  | Some text =>
      if negb (truthy text) then ret true
      else
        json <- liftResult (JSON_parse text) ;;
        hasCharacter <- liftResult (getMember json (lit "hasCharacter")) ;;
        ret (toBoolean hasCharacter)
  end.

(** Lines 170-181: the request of [checkImageForCharacter]. *)
Definition characterRequest (mimeType : jsstring) (base64Data : option jsstring)
  : Request :=
  {| model := lit "gemini-2.5-flash";
     contents := ContentsOne
       {| parts := Some [ inlinePart (Some mimeType) base64Data;
                          textPart characterQuestion ] |};
     config := {| systemInstruction := None;
                  responseModalities := None;
                  speechConfig := None;
                  responseMimeType := Some (lit "application/json");
                  responseSchema := None;
                  imageConfig := None |} |}.

(** Lines 160-192. *)
Definition checkImageForCharacter (base64Image : jsstring)
    (apiKey : option jsstring) : M bool :=
  if negb (truthyOpt apiKey) && negb (truthy ENV_API_KEY) then ret true
  else
    ai <- getClient apiKey ;;
    let (mimeType, base64Data) := splitDataUri base64Image in
    tryCatch
      (response <- generateContent ai (characterRequest mimeType base64Data) ;;
       characterOfResponse response)
      (fun e =>
         consoleError (lit "Error analyzing image for character content:") e ;;;
         ret true).

End Gateway.

Arguments EvConstruct {VoiceName} key.
Arguments EvGenerateContent {VoiceName} ai req.
Arguments EvConsoleError {VoiceName} label e.
Arguments getClient {VoiceName} API_KEY apiKey.
Arguments construct {VoiceName} key.
Arguments characterOfResponse {VoiceName} response.
Arguments storyboardRequest {VoiceName} fullText.
Arguments sceneImageRequest {VoiceName} parts.
Arguments characterRequest {VoiceName} mimeType base64Data.

(** ** Vocabulary of the specification *)

(** Credential resolution as the specification words it: the caller's key
    if present and non-empty, otherwise the fallback of the environment if
    present and non-empty, otherwise none. *)
Definition resolveCredential (explicit fallback : option jsstring)
  : option jsstring :=
  match explicit with
  | Some (c :: k) => Some (c :: k)
  | _ => match fallback with
         | Some (c :: k) => Some (c :: k)
         | _ => None
         end
  end.

(** The error of a missing credential. *)
Definition missingCredential : Exn := Error missingKeyMessage.

(** A part carries inline binary data when it has [inlineData] whose
    [data] is a non-empty string. *)
Definition carriesInlineData (p : Part) : bool :=
  match inlinePayload p with
  | Some _ => true
  | None => false
  end.

(** A string of white space only. *)
Definition allSpace (w : jsstring) : bool := forallb isTrimSpace w.

(** A text between code fences, with optional white space around the
    fences. *)
Definition wrapFences (w0 w1 t w2 w3 : jsstring) : jsstring :=
  w0 ++ fence_json ++ w1 ++ t ++ w2 ++ fence ++ w3.

Definition isAlpha (c : N) : bool :=
  ((65 <=? c) && (c <=? 90) || (97 <=? c) && (c <=? 122))%N.

(** The base64 alphabet, with padding. *)
Definition isBase64Char (c : N) : bool :=
  (isAlpha c || isDigit c || (c =? 43) || (c =? 47) || (c =? 61))%N.

Definition isBase64 (p : jsstring) : bool := forallb isBase64Char p.

(** The characters of the two names of a MIME type (RFC 6838,
    restricted-name-chars). *)
Definition isNameChar (c : N) : bool :=
  (isAlpha c || isDigit c || (c =? 33) || (c =? 35) || (c =? 36) || (c =? 38)
   || (c =? 45) || (c =? 94) || (c =? 95) || (c =? 46) || (c =? 43))%N.

Fixpoint isName (s : jsstring) : bool :=
  match s with
  | [] => false
  | [c] => isNameChar c
  | c :: r => isNameChar c && isName r
  end.

(** A MIME type: a type name, a slash, a subtype name. *)
Fixpoint isMimeType (m : jsstring) : bool :=
  match m with
  | [] => false
  | c :: r =>
      isNameChar c &&
      match r with
      | [] => false
      | d :: sub => if (d =? 47)%N then isName sub else isMimeType r
      end
  end.

(** The first content part of the first candidate, if there is one. *)
Definition firstPart (response : GenerateContentResponse) : option Part :=
  match candidates response with
  | Some (c :: _) =>
      match content c with
      | Some ct => match parts ct with
                   | Some (p :: _) => Some p
                   | _ => None
                   end
      | None => None
      end
  | _ => None
  end.

(** The operation built its client from [key] and sent its request
    through that client. *)
Definition usesKey {VoiceName A : Type} (key : jsstring) (m : M VoiceName A)
  : Prop :=
  exists req rest,
    events m = EvConstruct key :: EvGenerateContent {| apiKey := key |} req :: rest.

(** The data-URI the specification describes for a part that carries
    inline data: [data:<mimeType or image/png>;base64,<payload>], where a
    MIME type that is absent or the empty string counts as absent. *)
Definition rewrap (part : Part) : jsstring :=
  match inlineData part with
  | Some b =>
      lit "data:"
      ++ match mimeType b with
         | Some (c :: m) => c :: m
         | _ => image_png
         end
      ++ lit ";base64,"
      ++ match data b with
         | Some d => d
         | None => []
         end
  | None => []
  end.

(** The request [checkImageForCharacter] sends for an image. *)
Definition characterRequestOf {VoiceName : Type} (base64Image : jsstring)
  : Request VoiceName :=
  characterRequest (fst (splitDataUri base64Image)) (snd (splitDataUri base64Image)).

(** [json.hasCharacter] of a parsed value other than [null]. *)
Definition hasCharacterField (json : JSON) : option JSON :=
  match json with
  | JObject ms => lookupMember (lit "hasCharacter") ms
  | _ => None
  end.

(** The parsed value has no member named [hasCharacter]. *)
Definition lacksHasCharacter (json : JSON) : bool :=
  match json with
  | JObject ms =>
      negb (existsb (fun kv => jsstring_eqb (fst kv) (lit "hasCharacter")) ms)
  | _ => true
  end.

(** Services for the examples: one that answers every request with the
    same response, one that rejects every request. *)
Definition answering (response : GenerateContentResponse)
  : GoogleGenAI -> Request unit -> Result GenerateContentResponse :=
  fun _ _ => Return response.

Definition rejecting (e : Exn)
  : GoogleGenAI -> Request unit -> Result GenerateContentResponse :=
  fun _ _ => Throw e.

(** A string the lazy star can cross: no semicolon, no line terminator. *)
Definition crossable (m : jsstring) : Prop :=
  forall c, In c m -> c <> semicolon /\ isLineTerminator c = false.

(** A string literal of JSON (and of the source, where it holds quotes):
    the characters between two double quotes. *)
Definition quoted (s : jsstring) : jsstring := dquote :: s ++ [dquote].

(** Boolean forms of the side conditions, for concrete strings. *)
Definition crossableb (m : jsstring) : bool :=
  forallb (fun c => negb (c =? semicolon)%N && negb (isLineTerminator c)) m.

Definition occurs (x : N) (s : jsstring) : bool := existsb (N.eqb x) s.

(** A response that is only text. *)
Definition textResponse (t : jsstring) : GenerateContentResponse :=
  {| candidates := None; response_text := Some t |}.

(** A response with one candidate made of the given parts. *)
Definition partsResponse (ps : list Part) : GenerateContentResponse :=
  {| candidates := Some [ {| content := Some {| parts := Some ps |} |} ];
     response_text := None |}.

(** ** Vocabulary for the events of an operation *)

(** One round trip that went through: the client is built, the request is
    sent, nothing is logged. *)
Definition roundTrip {VoiceName : Type} (key : jsstring) (req : Request VoiceName)
  : list (Event VoiceName) :=
  [EvConstruct key; EvGenerateContent {| apiKey := key |} req].

(** One round trip that failed: as above, then one line on the console. *)
Definition failedRoundTrip {VoiceName : Type} (key : jsstring)
    (req : Request VoiceName) (label : jsstring) (e : Exn)
  : list (Event VoiceName) :=
  [EvConstruct key; EvGenerateContent {| apiKey := key |} req;
   EvConsoleError label e].

Definition speechLabel : jsstring := lit "Error generating speech:".
Definition storyboardLabel : jsstring := lit "Error generating storyboard:".
Definition sceneImageLabel : jsstring := lit "Error generating scene image:".
Definition characterLabel : jsstring :=
  lit "Error analyzing image for character content:".

(** The events of an operation that resolves its key to [resolved], sends
    [req] and logs under [label]: nothing at all without a key, otherwise
    exactly one round trip, failed or not. *)
Definition oneRoundTrip {VoiceName A : Type} (resolved : option jsstring)
    (req : Request VoiceName) (label : jsstring) (m : M VoiceName A) : Prop :=
  match resolved with
  | None => events m = []
  | Some key =>
      events m = roundTrip key req
      \/ exists e, events m = failedRoundTrip key req label e
  end.

(** [s.includes(pat)] *)
Fixpoint includes (pat s : jsstring) : bool :=
  startsWith pat s
  || match s with
     | [] => false
     | _ :: r => includes pat r
     end.

(** No white space at either end. *)
Definition tight (s : jsstring) : Prop :=
  (forall c r, s = c :: r -> isTrimSpace c = false)
  /\ (forall r c, s = r ++ [c] -> isTrimSpace c = false).

(** * Properties *)

Unset Implicit Arguments.

(** ** Splitting and matching *)

Lemma split_no_sep (sep : N) (s : jsstring) :
  ~ In sep s -> split sep s = [s].
Proof.
  induction s as [|c s IH]; intros Hn; simpl.
  - reflexivity.
  - destruct (N.eqb_spec c sep) as [->|Hc].
    + exfalso. apply Hn. now left.
    + rewrite IH; [reflexivity|]. intros Hin. apply Hn. now right.
Qed.

Lemma split_app (sep : N) (h r : jsstring) :
  ~ In sep h -> split sep (h ++ sep :: r) = h :: split sep r.
Proof.
  induction h as [|c h IH]; intros Hn; simpl.
  - now rewrite N.eqb_refl.
  - destruct (N.eqb_spec c sep) as [->|Hc].
    + exfalso. apply Hn. now left.
    + rewrite IH; [reflexivity|]. intros Hin. apply Hn. now right.
Qed.

Lemma lazyUntilSemicolon_app (m rest : jsstring) :
  crossable m -> lazyUntilSemicolon (m ++ semicolon :: rest) = Some m.
Proof.
  induction m as [|c m IH]; intros Hm; simpl.
  - reflexivity.
  - destruct (Hm c (or_introl eq_refl)) as [Hs Hl].
    apply N.eqb_neq in Hs. rewrite Hs, Hl.
    rewrite IH; [reflexivity|]. intros d Hd. apply Hm. now right.
Qed.


Lemma matchMime_app (pre m rest : jsstring) :
  ~ In colon pre -> crossable m ->
  matchMime (pre ++ colon :: m ++ semicolon :: rest) = Some m.
Proof.
  induction pre as [|c pre IH]; intros Hn Hm; simpl.
  - now rewrite lazyUntilSemicolon_app.
  - destruct (N.eqb_spec c colon) as [->|Hc].
    + exfalso. apply Hn. now left.
    + apply IH; [|assumption]. intros Hin. apply Hn. now right.
Qed.



(** What lines 112-113 give on a string with one comma whose header holds
    [:m;] after a colon-free prefix. *)
Lemma splitDataUri_shape (pre m rest p : jsstring) :
  ~ In colon pre -> crossable m -> m <> [] ->
  ~ In comma (pre ++ colon :: m ++ semicolon :: rest) -> ~ In comma p ->
  splitDataUri ((pre ++ colon :: m ++ semicolon :: rest) ++ comma :: p)
  = (m, Some p).
Proof.
  intros Hpre Hm Hne Hh Hp. unfold splitDataUri.
  rewrite (split_app comma _ p Hh), (split_no_sep comma p Hp). simpl.
  rewrite (matchMime_app pre m rest Hpre Hm).
  destruct m; [congruence|reflexivity].
Qed.


Lemma splitDataUri_no_comma (s : jsstring) :
  ~ In comma s -> snd (splitDataUri s) = None.
Proof.
  intros Hn. unfold splitDataUri. now rewrite (split_no_sep comma s Hn).
Qed.

(** ** Global replacement and trimming *)

Lemma startsWith_app (pat s : jsstring) : startsWith pat (pat ++ s) = true.
Proof.
  induction pat as [|p pat IH]; simpl; [reflexivity|].
  now rewrite N.eqb_refl.
Qed.

Lemma startsWith_length (pat s : jsstring) :
  startsWith pat s = true -> List.length pat <= List.length s.
Proof.
  revert s. induction pat as [|p pat IH]; intros [|c s] H; simpl in *;
    try lia; try discriminate.
  apply andb_prop in H. destruct H as [_ H]. apply IH in H. lia.
Qed.

(** A pattern whose last character does not occur in [s'] cannot match
    across the end of [t] into [s']. *)
Lemma startsWith_suffix_free (pat t s' : jsstring) :
  pat <> [] -> ~ In (last pat 0%N) s' ->
  startsWith pat (t ++ s') = startsWith pat t.
Proof.
  revert t s'. induction pat as [|p pat IH]; intros t s' Hne Hl; [congruence|].
  destruct pat as [|q pat].
  - destruct t as [|c t]; simpl.
    + destruct s' as [|c s']; [reflexivity|]. simpl in Hl.
      destruct (N.eqb_spec p c) as [->|]; [|reflexivity].
      exfalso. apply Hl. now left.
    + reflexivity.
  - destruct t as [|c t].
    + destruct s' as [|c s']; [reflexivity|].
      change (startsWith (p :: q :: pat) ([] ++ c :: s'))
        with ((p =? c)%N && startsWith (q :: pat) ([] ++ s')).
      rewrite IH; [now rewrite andb_false_r|discriminate|].
      intros Hin. apply Hl. now right.
    + change (startsWith (p :: q :: pat) ((c :: t) ++ s'))
        with ((p =? c)%N && startsWith (q :: pat) (t ++ s')).
      rewrite IH; [reflexivity|discriminate|exact Hl].
Qed.

Lemma replaceFrom_skip (pat rep x s : jsstring) :
  replaceFrom pat rep (List.length x) (x ++ s) = replaceFrom pat rep 0 s.
Proof.
  induction x as [|c x IH]; simpl; [reflexivity|exact IH].
Qed.

(** A match at the front is replaced and the scan goes on behind it. *)
Lemma replaceAll_match (p : N) (pat rep s : jsstring) :
  replaceAll (p :: pat) rep ((p :: pat) ++ s) = rep ++ replaceAll (p :: pat) rep s.
Proof.
  unfold replaceAll.
  change (replaceFrom (p :: pat) rep 0 ((p :: pat) ++ s))
    with (if startsWith (p :: pat) ((p :: pat) ++ s)
          then rep ++ replaceFrom (p :: pat) rep (List.length (p :: pat) - 1) (pat ++ s)
          else p :: replaceFrom (p :: pat) rep 0 (pat ++ s)).
  rewrite startsWith_app.
  replace (List.length (p :: pat) - 1) with (List.length pat) by (simpl; lia).
  now rewrite replaceFrom_skip.
Qed.

(** Characters that differ from the first character of the pattern are
    copied. *)
Lemma replaceAll_other_prefix (p : N) (pat rep w s : jsstring) :
  ~ In p w ->
  replaceAll (p :: pat) rep (w ++ s) = w ++ replaceAll (p :: pat) rep s.
Proof.
  unfold replaceAll. induction w as [|c w IH]; intros Hn; [reflexivity|].
  change (replaceFrom (p :: pat) rep 0 ((c :: w) ++ s))
    with (if (p =? c)%N && startsWith pat (w ++ s)
          then rep ++ replaceFrom (p :: pat) rep (List.length (p :: pat) - 1) (w ++ s)
          else c :: replaceFrom (p :: pat) rep 0 (w ++ s)).
  destruct (N.eqb_spec p c) as [->|Hc].
  - exfalso. apply Hn. now left.
  - simpl. f_equal. apply IH. intros Hin. apply Hn. now right.
Qed.

(** A suffix without the last character of the pattern is copied, and
    does not change what happens before it. *)
Lemma replaceFrom_suffix_free (pat rep s' : jsstring) :
  pat <> [] -> ~ In (last pat 0%N) s' ->
  forall (t : jsstring) (skip : nat), skip <= List.length t ->
  replaceFrom pat rep skip (t ++ s') = replaceFrom pat rep skip t ++ s'.
Proof.
  intros Hne Hl. induction t as [|c t IH]; intros skip Hs.
  - assert (skip = 0) by (simpl in Hs; lia). subst skip. simpl.
    clear Hs. induction s' as [|c s' IHs]; [reflexivity|].
    change (replaceFrom pat rep 0 (c :: s'))
      with (if startsWith pat ([] ++ c :: s')
            then rep ++ replaceFrom pat rep (List.length pat - 1) s'
            else c :: replaceFrom pat rep 0 s').
    rewrite (startsWith_suffix_free pat [] (c :: s') Hne Hl).
    destruct pat; [congruence|]. simpl. f_equal. apply IHs.
    intros Hin. apply Hl. now right.
  - destruct skip as [|k].
    + change (replaceFrom pat rep 0 ((c :: t) ++ s'))
        with (if startsWith pat ((c :: t) ++ s')
              then rep ++ replaceFrom pat rep (List.length pat - 1) (t ++ s')
              else c :: replaceFrom pat rep 0 (t ++ s')).
      change (replaceFrom pat rep 0 (c :: t))
        with (if startsWith pat (c :: t)
              then rep ++ replaceFrom pat rep (List.length pat - 1) t
              else c :: replaceFrom pat rep 0 t).
      rewrite (startsWith_suffix_free pat (c :: t) s' Hne Hl).
      destruct (startsWith pat (c :: t)) eqn:Hst.
      * apply startsWith_length in Hst. simpl in Hst.
        rewrite IH by lia. now rewrite app_assoc.
      * rewrite IH by lia. reflexivity.
    + simpl. apply IH. simpl in Hs. lia.
Qed.

Lemma replaceAll_suffix_free (pat rep t s' : jsstring) :
  pat <> [] -> ~ In (last pat 0%N) s' ->
  replaceAll pat rep (t ++ s') = replaceAll pat rep t ++ s'.
Proof.
  intros Hne Hl. unfold replaceAll.
  apply replaceFrom_suffix_free; [assumption|assumption|lia].
Qed.

(** A closing fence after [x] disappears, whatever backticks [x] ends with:
    three of the backticks of the run go. *)
Lemma replaceFrom_closing_fence (y : jsstring) :
  ~ In backtick y ->
  forall (x : jsstring) (skip : nat), skip <= List.length x ->
  replaceFrom fence [] skip (x ++ fence ++ y) = replaceFrom fence [] skip x ++ y.
Proof.
  intros Hy.
  assert (Hy0 : replaceFrom fence [] 0 y = y).
  { apply (replaceFrom_suffix_free fence [] y) with (t := []) (skip := 0);
      [discriminate|exact Hy|simpl; lia]. }
  assert (Hy1 : replaceFrom fence [] 0 (backtick :: y) = backtick :: y).
  { destruct y as [|d y']; [reflexivity|].
    assert (Hd : (backtick =? d)%N = false).
    { apply N.eqb_neq. intros Hd. subst d. apply Hy. now left. }
    change (replaceFrom fence [] 0 (backtick :: d :: y'))
      with (if (backtick =? backtick)%N && ((backtick =? d)%N && startsWith [backtick] y')
            then replaceFrom fence [] 2 (d :: y')
            else backtick :: replaceFrom fence [] 0 (d :: y')).
    rewrite Hd. simpl andb. cbv iota. now rewrite Hy0. }
  assert (Hy2 : replaceFrom fence [] 0 (backtick :: backtick :: y)
                = backtick :: backtick :: y).
  { destruct y as [|d y']; [reflexivity|].
    assert (Hd : (backtick =? d)%N = false).
    { apply N.eqb_neq. intros Hd. subst d. apply Hy. now left. }
    change (replaceFrom fence [] 0 (backtick :: backtick :: d :: y'))
      with (if (backtick =? backtick)%N && ((backtick =? backtick)%N && ((backtick =? d)%N && true))
            then replaceFrom fence [] 0 y'
            else backtick :: replaceFrom fence [] 0 (backtick :: d :: y')).
    rewrite Hd. simpl andb. cbv iota. now rewrite Hy1. }
  induction x as [|c x IH]; intros skip Hs.
  - assert (skip = 0) by (simpl in Hs; lia). subst skip. exact Hy0.
  - destruct skip as [|k]; [|simpl; apply IH; simpl in Hs; lia].
    destruct x as [|d [|e x]].
    + destruct (N.eqb_spec backtick c) as [Hc|Hc]; [subst c|].
      * change (replaceFrom fence [] 0 ([backtick] ++ fence ++ y))
          with (replaceFrom fence [] 0 (backtick :: y)).
        rewrite Hy1. reflexivity.
      * change (replaceFrom fence [] 0 ([c] ++ fence ++ y))
          with (if (backtick =? c)%N && true
                then replaceFrom fence [] 0 (backtick :: y)
                else c :: replaceFrom fence [] 0 y).
        change (replaceFrom fence [] 0 [c])
          with (if (backtick =? c)%N && false then [] else [c]).
        apply N.eqb_neq in Hc. rewrite Hc. simpl. now rewrite Hy0.
    + destruct (N.eqb_spec backtick c) as [Hc|Hc]; [subst c|].
      * destruct (N.eqb_spec backtick d) as [Hd|Hd]; [subst d|].
        -- change (replaceFrom fence [] 0 ([backtick; backtick] ++ fence ++ y))
             with (replaceFrom fence [] 0 (backtick :: backtick :: y)).
           rewrite Hy2. reflexivity.
        -- specialize (IH 0 (Nat.le_0_l _)).
           apply N.eqb_neq in Hd.
           change (replaceFrom fence [] 0 ([backtick; d] ++ fence ++ y))
             with (if (backtick =? d)%N && true
                   then replaceFrom fence [] 2 ([d] ++ fence ++ y)
                   else backtick :: replaceFrom fence [] 0 ([d] ++ fence ++ y)).
           change (replaceFrom fence [] 0 [backtick; d])
             with (if (backtick =? d)%N && false
                   then replaceFrom fence [] 2 [d]
                   else backtick :: replaceFrom fence [] 0 [d]).
           rewrite Hd. simpl andb. cbv iota. now rewrite IH.
      * specialize (IH 0 (Nat.le_0_l _)).
        apply N.eqb_neq in Hc.
        change (replaceFrom fence [] 0 ([c; d] ++ fence ++ y))
          with (if (backtick =? c)%N && ((backtick =? d)%N && true)
                then replaceFrom fence [] 2 ([d] ++ fence ++ y)
                else c :: replaceFrom fence [] 0 ([d] ++ fence ++ y)).
        change (replaceFrom fence [] 0 [c; d])
          with (if (backtick =? c)%N && ((backtick =? d)%N && false)
                then replaceFrom fence [] 2 [d]
                else c :: replaceFrom fence [] 0 [d]).
        rewrite Hc. simpl andb. cbv iota. now rewrite IH.
    + change (replaceFrom fence [] 0 ((c :: d :: e :: x) ++ fence ++ y))
        with (if (backtick =? c)%N && ((backtick =? d)%N && ((backtick =? e)%N && true))
              then replaceFrom fence [] 2 ((d :: e :: x) ++ fence ++ y)
              else c :: replaceFrom fence [] 0 ((d :: e :: x) ++ fence ++ y)).
      change (replaceFrom fence [] 0 (c :: d :: e :: x))
        with (if (backtick =? c)%N && ((backtick =? d)%N && ((backtick =? e)%N && true))
              then replaceFrom fence [] 2 (d :: e :: x)
              else c :: replaceFrom fence [] 0 (d :: e :: x)).
      destruct ((backtick =? c)%N && ((backtick =? d)%N && ((backtick =? e)%N && true))).
      * apply IH. simpl. lia.
      * rewrite IH by (simpl; lia). reflexivity.
Qed.

Lemma allSpace_not_in (w : jsstring) (c : N) :
  allSpace w = true -> isTrimSpace c = false -> ~ In c w.
Proof.
  unfold allSpace. intros Hw Hc Hin.
  rewrite forallb_forall in Hw. apply Hw in Hin. congruence.
Qed.

Lemma trimStart_space (w s : jsstring) :
  allSpace w = true -> trimStart (w ++ s) = trimStart s.
Proof.
  unfold allSpace. induction w as [|c w IH]; simpl; intros Hw; [reflexivity|].
  apply andb_prop in Hw. destruct Hw as [Hc Hw]. rewrite Hc. now apply IH.
Qed.

Lemma trimEnd_space (s w : jsstring) :
  allSpace w = true -> trimEnd (s ++ w) = trimEnd s.
Proof.
  intros Hw. unfold trimEnd. rewrite rev_app_distr, trimStart_space; [reflexivity|].
  unfold allSpace in *. rewrite forallb_forall in *.
  intros c Hc. apply Hw. now apply in_rev.
Qed.

Lemma trim_space_l (w s : jsstring) :
  allSpace w = true -> trim (w ++ s) = trim s.
Proof. intros Hw. unfold trim. now rewrite trimStart_space. Qed.

Lemma trim_space_r (s w : jsstring) :
  allSpace w = true -> trim (s ++ w) = trim s.
Proof.
  intros Hw. unfold trim. induction s as [|c s IH].
  - simpl. rewrite <- (app_nil_r w) at 1. rewrite trimStart_space by assumption.
    reflexivity.
  - simpl. destruct (isTrimSpace c); [exact IH|].
    now rewrite app_comm_cons, trimEnd_space.
Qed.

(** Fences and the white space around them leave no trace in the cleaned
    text. *)
Lemma cleanFences_wrap (w0 w1 t w2 w3 : jsstring) :
  allSpace w0 = true -> allSpace w1 = true ->
  allSpace w2 = true -> allSpace w3 = true ->
  cleanFences (wrapFences w0 w1 t w2 w3) = cleanFences t.
Proof.
  intros H0 H1 H2 H3. unfold cleanFences, wrapFences.
  assert (Hb : forall w, allSpace w = true -> ~ In backtick w)
    by (intros w Hw; now apply allSpace_not_in).
  assert (Hn : forall w, allSpace w = true -> ~ In 110%N w)
    by (intros w Hw; now apply allSpace_not_in).
  (* first replacement: the opening fence goes, the rest is as in [t] *)
  change fence_json with (backtick :: lit "``json") at 1 2.
  rewrite (replaceAll_other_prefix backtick (lit "``json") [] w0) by auto.
  rewrite replaceAll_match. cbn [app].
  rewrite (replaceAll_other_prefix backtick (lit "``json") [] w1) by auto.
  rewrite (replaceAll_suffix_free (backtick :: lit "``json") [] t (w2 ++ fence ++ w3)).
  2: discriminate.
  2: { cbn [last lit]. change (last _ _) with 110%N. intros Hin.
       apply in_app_or in Hin. destruct Hin as [Hin|Hin]; [now apply (Hn w2)|].
       apply in_app_or in Hin. destruct Hin as [Hin|Hin]; [|now apply (Hn w3)].
       simpl in Hin. intuition discriminate. }
  change (backtick :: lit "``json") with fence_json.
  set (x := replaceAll fence_json [] t).
  (* second replacement: the closing fence goes *)
  change fence with (backtick :: lit "``") at 1 3.
  rewrite (replaceAll_other_prefix backtick (lit "``") [] w0) by auto.
  rewrite (replaceAll_other_prefix backtick (lit "``") [] w1) by auto.
  change (backtick :: lit "``") with fence.
  replace (x ++ w2 ++ fence ++ w3) with ((x ++ w2) ++ fence ++ w3)
    by now rewrite <- app_assoc.
  unfold replaceAll at 1.
  rewrite (replaceFrom_closing_fence w3 (Hb w3 H3) (x ++ w2) 0 (Nat.le_0_l _)).
  fold (replaceAll fence [] (x ++ w2)).
  rewrite (replaceAll_suffix_free fence [] x w2); [|discriminate|exact (Hb w2 H2)].
  (* trimming removes what is left around *)
  rewrite !trim_space_l by assumption.
  rewrite !trim_space_r by assumption.
  reflexivity.
Qed.

(** ** [JSON.parse] never runs out of fuel *)

Lemma skipWs_length (s : jsstring) : List.length (skipWs s) <= List.length s.
Proof.
  induction s as [|c s IH]; simpl; [lia|].
  destruct (isJsonSpace c); simpl; lia.
Qed.

Lemma takeDigits_length (s : jsstring) :
  List.length (fst (takeDigits s)) + List.length (snd (takeDigits s))
  = List.length s.
Proof.
  induction s as [|c s IH]; simpl; [reflexivity|].
  destruct (isDigit c); [|reflexivity].
  destruct (takeDigits s) as [ds rest]. simpl in *. lia.
Qed.

Lemma parseStringChars_length (n : nat) :
  forall (s acc str r : jsstring),
    List.length s <= n ->
    parseStringChars s acc = Some (str, r) -> List.length r < List.length s.
Proof.
  induction n as [|n IH]; intros s acc str r Hn H.
  - destruct s; [discriminate|simpl in Hn; lia].
  - destruct s as [|c s]; [discriminate|]. simpl in Hn. simpl in H.
    destruct (c =? dquote)%N.
    { injection H as _ <-. simpl. lia. }
    destruct (c =? backslash)%N.
    { destruct s as [|e s]; [discriminate|].
      destruct (e =? 117)%N.
      - destruct s as [|h1 [|h2 [|h3 [|h4 s]]]]; try discriminate.
        destruct (hex4 h1 h2 h3 h4); [|discriminate].
        apply IH in H; simpl in *; lia.
      - destruct (unescape e); [|discriminate].
        apply IH in H; simpl in *; lia. }
    destruct (c <? 32)%N; [discriminate|].
    apply IH in H; simpl; lia.
Qed.

Lemma takeDigits_rest (s ds rest : jsstring) :
  takeDigits s = (ds, rest) -> List.length ds + List.length rest = List.length s.
Proof.
  intros H. pose proof (takeDigits_length s) as E. now rewrite H in E.
Qed.

Lemma numberSign_length (s : jsstring) :
  List.length (snd (numberSign s)) <= List.length s.
Proof.
  destruct s as [|c r]; simpl; [lia|].
  destruct (c =? 45)%N; simpl; lia.
Qed.

Lemma numberInt_length (s ids r : jsstring) :
  numberInt s = Some (ids, r) -> List.length r < List.length s.
Proof.
  destruct s as [|c s]; [discriminate|]. unfold numberInt.
  destruct (c =? 48)%N.
  - intros H. injection H as _ <-. simpl. lia.
  - destruct (isDigit c) eqn:Hd; [|discriminate].
    intros H. injection H as H. simpl in H. rewrite Hd in H.
    destruct (takeDigits s) as [ds rest] eqn:E. apply takeDigits_rest in E.
    injection H as _ <-. simpl. lia.
Qed.

Lemma numberFrac_length (s fds r : jsstring) :
  numberFrac s = Some (fds, r) -> List.length r <= List.length s.
Proof.
  destruct s as [|c s]; simpl.
  - intros H. injection H as _ <-. simpl. lia.
  - destruct (c =? 46)%N.
    + destruct (takeDigits s) as [ds rest] eqn:E. apply takeDigits_rest in E.
      destruct ds; [discriminate|]. intros H. injection H as _ <-. simpl. lia.
    + intros H. injection H as _ <-. simpl. lia.
Qed.

Lemma numberExp_length (s r : jsstring) (e : Z) :
  numberExp s = Some (e, r) -> List.length r <= List.length s.
Proof.
  destruct s as [|c s]; simpl.
  - intros H. injection H as _ <-. simpl. lia.
  - destruct ((c =? 101) || (c =? 69))%N.
    + set (sg := match s with
                 | [] => (false, s)
                 | g :: r' => if (g =? 45)%N then (true, r')
                              else if (g =? 43)%N then (false, r') else (false, s)
                 end).
      assert (Hsg : List.length (snd sg) <= List.length s).
      { subst sg. destruct s as [|g r']; simpl; [lia|].
        destruct (g =? 45)%N; [simpl; lia|]. destruct (g =? 43)%N; simpl; lia. }
      destruct sg as [eneg r1]. simpl in Hsg.
      destruct (takeDigits r1) as [ds rest] eqn:E. apply takeDigits_rest in E.
      destruct ds; [discriminate|]. intros H. injection H as _ <-. simpl. lia.
    + intros H. injection H as _ <-. simpl. lia.
Qed.

Lemma parseNumber_length (s r : jsstring) (d : Decimal) :
  parseNumber s = Some (d, r) -> List.length r < List.length s.
Proof.
  unfold parseNumber. pose proof (numberSign_length s) as Hs.
  destruct (numberSign s) as [sign s1]. simpl in Hs.
  destruct (numberInt s1) as [[ids s2]|] eqn:Hi; [|discriminate].
  apply numberInt_length in Hi.
  destruct (numberFrac s2) as [[fds s3]|] eqn:Hf; [|discriminate].
  apply numberFrac_length in Hf.
  destruct (numberExp s3) as [[e s4]|] eqn:He; [|discriminate].
  apply numberExp_length in He.
  intros H. injection H as _ <-. lia.
Qed.

Ltac parse_step H :=
  cbn -[startsWith lit parseNumber parseStringChars skipWs skipn
        N.eqb List.length] in H.

Tactic Notation "use_skipWs" constr(s) "as" ident(c) ident(r) :=
  let E := fresh "E" in let L := fresh "L" in
  pose proof (skipWs_length s) as L;
  destruct (skipWs s) as [|c r] eqn:E; simpl in L.

(** A value that parses takes at least one character. *)
Lemma parse_shorter (f : nat) :
  (forall s v r, parseValue f s = POk v r -> List.length r < List.length s)
  /\ (forall s acc v r,
        parseElements f s acc = POk v r -> List.length r < List.length s)
  /\ (forall s acc v r,
        parseMembers f s acc = POk v r -> List.length r < List.length s).
Proof.
  induction f as [|f [IHv [IHe IHm]]].
  { repeat split; intros; discriminate. }
  repeat split.
  - intros s v r H. parse_step H.
    use_skipWs s as c s1; [discriminate|].
    destruct (c =? lbrace)%N.
    { use_skipWs s1 as c' s2; [discriminate|].
      destruct (c' =? rbrace)%N.
      - injection H as _ <-. lia.
      - apply IHm in H. lia. }
    destruct (c =? lbracket)%N.
    { use_skipWs s1 as c' s2; [discriminate|].
      destruct (c' =? rbracket)%N.
      - injection H as _ <-. lia.
      - apply IHe in H. lia. }
    destruct (c =? dquote)%N.
    { destruct (parseStringChars s1 []) as [[str r']|] eqn:Hs; [|discriminate].
      apply (parseStringChars_length (List.length s1)) in Hs; [|lia].
      injection H as _ <-. lia. }
    destruct (startsWith (lit "true") (c :: s1)).
    { replace r with (skipn 3 s1) by congruence. rewrite length_skipn. lia. }
    destruct (startsWith (lit "false") (c :: s1)).
    { replace r with (skipn 4 s1) by congruence. rewrite length_skipn. lia. }
    destruct (startsWith (lit "null") (c :: s1)).
    { replace r with (skipn 3 s1) by congruence. rewrite length_skipn. lia. }
    destruct (parseNumber (c :: s1)) as [[d r']|] eqn:Hn; [|discriminate].
    apply parseNumber_length in Hn. simpl in Hn.
    injection H as _ <-. lia.
  - intros s acc v r H. parse_step H.
    destruct (parseValue f s) as [v' rest| |] eqn:Hv; try discriminate.
    apply IHv in Hv.
    use_skipWs rest as c s1; [discriminate|].
    destruct (c =? comma)%N.
    { apply IHe in H. lia. }
    destruct (c =? rbracket)%N; [|discriminate].
    injection H as _ <-. lia.
  - intros s acc v r H. parse_step H.
    use_skipWs s as c s1; [discriminate|].
    destruct (c =? dquote)%N; [|discriminate].
    destruct (parseStringChars s1 []) as [[k r1]|] eqn:Hs; [|discriminate].
    apply (parseStringChars_length (List.length s1)) in Hs; [|lia].
    use_skipWs r1 as c2 s2; [discriminate|].
    destruct (c2 =? colon)%N; [|discriminate].
    destruct (parseValue f s2) as [v' rest| |] eqn:Hv; try discriminate.
    apply IHv in Hv.
    use_skipWs rest as c3 s3; [discriminate|].
    destruct (c3 =? comma)%N.
    { apply IHm in H. lia. }
    destruct (c3 =? rbrace)%N; [|discriminate].
    injection H as _ <-. lia.
Qed.

(** Fuel above twice the length of the text is never used up. *)
Lemma parse_fuel (f : nat) :
  (forall s, 2 * List.length s < f -> parseValue f s <> PFuel)
  /\ (forall s acc, 2 * List.length s + 1 < f -> parseElements f s acc <> PFuel)
  /\ (forall s acc, 2 * List.length s + 1 < f -> parseMembers f s acc <> PFuel).
Proof.
  induction f as [|f [IHv [IHe IHm]]].
  { repeat split; intros; lia. }
  destruct (parse_shorter f) as [Sv _].
  repeat split.
  - intros s Hf H. parse_step H.
    use_skipWs s as c s1; [discriminate|].
    destruct (c =? lbrace)%N.
    { use_skipWs s1 as c' s2; [discriminate|].
      destruct (c' =? rbrace)%N; [discriminate|].
      revert H. apply IHm. lia. }
    destruct (c =? lbracket)%N.
    { use_skipWs s1 as c' s2; [discriminate|].
      destruct (c' =? rbracket)%N; [discriminate|].
      revert H. apply IHe. lia. }
    destruct (c =? dquote)%N.
    { destruct (parseStringChars s1 []) as [[str r']|]; discriminate. }
    destruct (startsWith (lit "true") (c :: s1)); [discriminate|].
    destruct (startsWith (lit "false") (c :: s1)); [discriminate|].
    destruct (startsWith (lit "null") (c :: s1)); [discriminate|].
    destruct (parseNumber (c :: s1)) as [[d r']|]; discriminate.
  - intros s acc Hf H. parse_step H.
    destruct (parseValue f s) as [v' rest| |] eqn:Hv; try discriminate.
    + apply Sv in Hv.
      use_skipWs rest as c s1; [discriminate|].
      destruct (c =? comma)%N.
      { revert H. apply IHe. lia. }
      destruct (c =? rbracket)%N; discriminate.
    + revert Hv. apply IHv. lia.
  - intros s acc Hf H. parse_step H.
    use_skipWs s as c s1; [discriminate|].
    destruct (c =? dquote)%N; [|discriminate].
    destruct (parseStringChars s1 []) as [[k r1]|] eqn:Hs; [|discriminate].
    apply (parseStringChars_length (List.length s1)) in Hs; [|lia].
    use_skipWs r1 as c2 s2; [discriminate|].
    destruct (c2 =? colon)%N; [|discriminate].
    destruct (parseValue f s2) as [v' rest| |] eqn:Hv; try discriminate.
    + apply Sv in Hv.
      use_skipWs rest as c3 s3; [discriminate|].
      destruct (c3 =? comma)%N.
      { revert H. apply IHm. lia. }
      destruct (c3 =? rbrace)%N; discriminate.
    + revert Hv. apply IHv. lia.
Qed.

Lemma parseValue_fuel (text : jsstring) :
  parseValue (parseFuel text) text <> PFuel.
Proof.
  apply (proj1 (parse_fuel (parseFuel text))). unfold parseFuel. lia.
Qed.

(** [JSON.parse] returns a value exactly when the text is one value with
    white space around it, and throws a [SyntaxError] when the text does
    not parse. *)
Lemma JSON_parse_outcome (text : jsstring) :
  (exists v rest, parseValue (parseFuel text) text = POk v rest
                  /\ skipWs rest = [] /\ JSON_parse text = Return v)
  \/ JSON_parse text = Throw SyntaxError.
Proof.
  unfold JSON_parse.
  destruct (parseValue (parseFuel text) text) as [v rest| |] eqn:H.
  - destruct (skipWs rest) eqn:E; [left|right; reflexivity].
    exists v, rest. now rewrite E.
  - now right.
  - now right.
Qed.

Lemma crossableb_sound (m : jsstring) : crossableb m = true -> crossable m.
Proof.
  unfold crossableb, crossable. intros H c Hc.
  rewrite forallb_forall in H. apply H in Hc.
  apply andb_prop in Hc. destruct Hc as [Hs Hl].
  apply negb_true_iff in Hs, Hl. split; [now apply N.eqb_neq|exact Hl].
Qed.

Lemma occurs_sound (x : N) (s : jsstring) : occurs x s = false -> ~ In x s.
Proof.
  unfold occurs. intros H Hin.
  assert (Ht : existsb (N.eqb x) s = true).
  { apply existsb_exists. exists x. split; [exact Hin|apply N.eqb_refl]. }
  congruence.
Qed.

(** ** MIME types and base64 payloads *)

Lemma isName_chars (s : jsstring) :
  isName s = true -> forall c, In c s -> isNameChar c = true.
Proof.
  induction s as [|a s IH]; [discriminate|].
  intros H c Hc. destruct s as [|b s].
  - destruct Hc as [<-|[]]. exact H.
  - change (isNameChar a && isName (b :: s) = true) in H.
    apply andb_prop in H. destruct H as [Ha Hs].
    destruct Hc as [<-|Hc]; [exact Ha|now apply IH].
Qed.

Lemma isMimeType_chars (m : jsstring) :
  isMimeType m = true ->
  m <> [] /\ forall c, In c m -> isNameChar c = true \/ c = 47%N.
Proof.
  induction m as [|a m IH]; [discriminate|].
  intros H. split; [discriminate|]. simpl in H.
  apply andb_prop in H. destruct H as [Ha H].
  destruct m as [|d sub]; [discriminate|].
  intros c [<-|Hc]; [now left|].
  destruct (N.eqb_spec d 47) as [->|Hd].
  - destruct Hc as [<-|Hc]; [now right|].
    left. now apply (isName_chars sub).
  - now apply IH.
Qed.

Lemma isNameChar_plain (c : N) :
  isNameChar c = true \/ c = 47%N ->
  c <> semicolon /\ c <> comma /\ isLineTerminator c = false.
Proof.
  intros [H| ->]; [|repeat split; discriminate].
  repeat split.
  - intros ->. discriminate H.
  - intros ->. discriminate H.
  - destruct (isLineTerminator c) eqn:E; [|reflexivity].
    unfold isLineTerminator in E.
    repeat (apply orb_prop in E; destruct E as [E|E]);
      apply N.eqb_eq in E; subst c; discriminate H.
Qed.

Lemma isBase64_no_comma (p : jsstring) : isBase64 p = true -> ~ In comma p.
Proof.
  unfold isBase64. intros H Hin. rewrite forallb_forall in H.
  apply H in Hin. discriminate Hin.
Qed.

(** The header parse and the split undo the construction of line 146 for
    every MIME string without semicolon, comma and line terminator, and
    every payload without comma. *)
Lemma splitDataUri_dataUri (m p : jsstring) :
  m <> [] -> crossable m -> ~ In comma m -> ~ In comma p ->
  splitDataUri (dataUri (Some m) p) = (m, Some p).
Proof.
  intros Hne Hm Hc Hp. unfold dataUri.
  replace (orElse (Some m) image_png) with m by (destruct m; [congruence|reflexivity]).
  replace (lit "data:" ++ m ++ lit ";base64," ++ p)
    with ((lit "data" ++ colon :: m ++ semicolon :: lit "base64") ++ comma :: p).
  2: { rewrite <- !app_assoc. cbn [lit app]. rewrite <- app_assoc. reflexivity. }
  apply splitDataUri_shape; try assumption.
  - cbn. intuition discriminate.
  - intros Hin. apply in_app_or in Hin. destruct Hin as [Hin|Hin].
    + cbn in Hin. intuition discriminate.
    + destruct Hin as [Hin|Hin]; [discriminate|].
      apply in_app_or in Hin. destruct Hin as [Hin|Hin]; [now apply Hc|].
      cbn in Hin. intuition discriminate.
Qed.

Lemma isMimeType_roundtrip (m p : jsstring) :
  isMimeType m = true -> isBase64 p = true ->
  splitDataUri (dataUri (Some m) p) = (m, Some p).
Proof.
  intros Hm Hp. apply isMimeType_chars in Hm. destruct Hm as [Hne Hch].
  apply splitDataUri_dataUri.
  - exact Hne.
  - intros c Hc. apply Hch, isNameChar_plain in Hc. tauto.
  - intros Hin. apply Hch, isNameChar_plain in Hin. destruct Hin as [_ [Hin _]].
    now apply Hin.
  - now apply isBase64_no_comma.
Qed.

(** Outside that domain the header parse stops at the first semicolon: a
    parameter after the MIME type is not recovered. *)
Lemma splitDataUri_parameter (m param p : jsstring) :
  m <> [] -> crossable m -> ~ In comma m -> ~ In comma param -> ~ In comma p ->
  splitDataUri (dataUri (Some (m ++ semicolon :: param)) p) = (m, Some p).
Proof.
  intros Hne Hm Hc Hq Hp. unfold dataUri.
  replace (orElse (Some (m ++ semicolon :: param)) image_png)
    with (m ++ semicolon :: param) by (destruct m; reflexivity).
  replace (lit "data:" ++ (m ++ semicolon :: param) ++ lit ";base64," ++ p)
    with ((lit "data" ++ colon :: m ++ semicolon :: param ++ lit ";base64")
          ++ comma :: p).
  2: { rewrite <- !app_assoc. cbn [lit app]. rewrite <- !app_assoc.
       cbn [app]. rewrite <- !app_assoc. reflexivity. }
  apply splitDataUri_shape; try assumption.
  - cbn. intuition discriminate.
  - intros Hin. apply in_app_or in Hin. destruct Hin as [Hin|Hin].
    + cbn in Hin. intuition discriminate.
    + destruct Hin as [Hin|Hin]; [discriminate|].
      apply in_app_or in Hin. destruct Hin as [Hin|Hin]; [now apply Hc|].
      destruct Hin as [Hin|Hin]; [discriminate|].
      apply in_app_or in Hin. destruct Hin as [Hin|Hin]; [now apply Hq|].
      cbn in Hin. intuition discriminate.
Qed.

(** A payload is cut at its own first comma: [base64Data] is the second
    piece of the split, not all that follows the first comma. *)
Lemma splitDataUri_second_comma (h p q : jsstring) :
  ~ In comma h -> ~ In comma p ->
  snd (splitDataUri (h ++ comma :: p ++ comma :: q)) = Some p.
Proof.
  intros Hh Hp. unfold splitDataUri.
  rewrite (split_app comma h _ Hh), (split_app comma p q Hp). reflexivity.
Qed.

(** ** The operations, run *)

Section GatewayProperties.

Variable VoiceName : Type.
Variable API_KEY : option jsstring.
Variable remote : GoogleGenAI -> Request VoiceName -> Result GenerateContentResponse.

(** [getClient] resolves the credential as the specification says. *)
Lemma getClient_resolve (apiKey : option jsstring) :
  getClient (VoiceName := VoiceName) API_KEY apiKey
  = match resolveCredential apiKey API_KEY with
    | Some key => ([EvConstruct key], Return {| apiKey := key |})
    | None => ([], Throw missingCredential)
    end.
Proof.
  destruct apiKey as [[|c k]|]; destruct API_KEY as [[|c' k']|]; reflexivity.
Qed.

Lemma generateSpeech_run (text : jsstring) (voice : VoiceName)
    (stylePrompt : jsstring) (apiKey : option jsstring) :
  generateSpeech API_KEY remote text voice stylePrompt apiKey
  = match resolveCredential apiKey API_KEY with
    | None => ([], Throw missingCredential)
    | Some key =>
        let ai := {| apiKey := key |} in
        let req := speechRequest text voice stylePrompt in
        match remote ai req with
        | Return response =>
            ([EvConstruct key; EvGenerateContent ai req],
             Return (speechOfResponse response))
        | Throw e =>
            ([EvConstruct key; EvGenerateContent ai req;
              EvConsoleError (lit "Error generating speech:") e],
             Throw e)
        end
    end.
Proof.
  unfold generateSpeech. rewrite getClient_resolve.
  destruct (resolveCredential apiKey API_KEY) as [key|]; [|reflexivity].
  unfold bind, tryCatch, generateContent.
  destruct (remote _ _); reflexivity.
Qed.

Lemma generateStoryboard_run (fullText : jsstring) (apiKey : option jsstring) :
  generateStoryboard API_KEY remote fullText apiKey
  = match resolveCredential apiKey API_KEY with
    | None => ([], Throw missingCredential)
    | Some key =>
        let ai := {| apiKey := key |} in
        let req := storyboardRequest fullText in
        match remote ai req with
        | Return response =>
            match storyboardOfResponse response with
            | Return segments =>
                ([EvConstruct key; EvGenerateContent ai req], Return segments)
            | Throw e =>
                ([EvConstruct key; EvGenerateContent ai req;
                  EvConsoleError (lit "Error generating storyboard:") e],
                 Throw e)
            end
        | Throw e =>
            ([EvConstruct key; EvGenerateContent ai req;
              EvConsoleError (lit "Error generating storyboard:") e],
             Throw e)
        end
    end.
Proof.
  unfold generateStoryboard. rewrite getClient_resolve.
  destruct (resolveCredential apiKey API_KEY) as [key|]; [|reflexivity].
  unfold bind, tryCatch, generateContent, liftResult.
  destruct (remote _ _) as [response|e]; [|reflexivity].
  destruct (storyboardOfResponse response); reflexivity.
Qed.

Lemma generateSceneImage_run (prompt : jsstring)
    (referenceImageBase64 apiKey : option jsstring) :
  generateSceneImage API_KEY remote prompt referenceImageBase64 apiKey
  = match resolveCredential apiKey API_KEY with
    | None => ([], Throw missingCredential)
    | Some key =>
        let ai := {| apiKey := key |} in
        let req := sceneImageRequest (sceneImageParts prompt referenceImageBase64) in
        match remote ai req with
        | Return response =>
            ([EvConstruct key; EvGenerateContent ai req],
             Return (firstImage (responseParts response)))
        | Throw e =>
            ([EvConstruct key; EvGenerateContent ai req;
              EvConsoleError (lit "Error generating scene image:") e],
             Throw e)
        end
    end.
Proof.
  unfold generateSceneImage. rewrite getClient_resolve.
  destruct (resolveCredential apiKey API_KEY) as [key|]; [|reflexivity].
  unfold bind, tryCatch, generateContent.
  destruct (remote _ _); reflexivity.
Qed.

Lemma resolveCredential_guard (apiKey : option jsstring) :
  negb (truthyOpt apiKey) && negb (truthy (ENV_API_KEY API_KEY))
  = match resolveCredential apiKey API_KEY with
    | Some _ => false
    | None => true
    end.
Proof.
  destruct apiKey as [[|c k]|]; destruct API_KEY as [[|c' k']|]; reflexivity.
Qed.

Lemma checkImageForCharacter_run (base64Image : jsstring)
    (apiKey : option jsstring) :
  checkImageForCharacter API_KEY remote base64Image apiKey
  = match resolveCredential apiKey API_KEY with
    | None => ([], Return true)
    | Some key =>
        let ai := {| apiKey := key |} in
        let req := characterRequestOf base64Image in
        let failed e :=
          EvConsoleError (lit "Error analyzing image for character content:") e in
        match remote ai req with
        | Return response =>
            match outcome (characterOfResponse (VoiceName := VoiceName) response) with
            | Return b => ([EvConstruct key; EvGenerateContent ai req], Return b)
            | Throw e =>
                ([EvConstruct key; EvGenerateContent ai req; failed e], Return true)
            end
        | Throw e =>
            ([EvConstruct key; EvGenerateContent ai req; failed e], Return true)
        end
    end.
Proof.
  unfold checkImageForCharacter. rewrite resolveCredential_guard, getClient_resolve.
  destruct (resolveCredential apiKey API_KEY) as [key|]; [|reflexivity].
  unfold characterRequestOf. destruct (splitDataUri base64Image) as [m d].
  unfold bind, tryCatch, generateContent. cbn [fst snd].
  destruct (remote _ _) as [response|e]; [|reflexivity].
  unfold characterOfResponse, outcome, liftResult, bind, ret.
  destruct (response_text response) as [t|]; [|reflexivity].
  destruct (truthy t); [|reflexivity]. cbn [negb].
  destruct (JSON_parse t) as [json|e]; [|reflexivity].
  destruct (getMember json (lit "hasCharacter")); reflexivity.
Qed.

(** ** Credentials *)

Lemma usesKey_intro {A : Type} (key : jsstring) (req : Request VoiceName)
    (rest : list (Event VoiceName)) (r : Result A) :
  usesKey key (EvConstruct key :: EvGenerateContent {| apiKey := key |} req :: rest, r).
Proof. exists req, rest. reflexivity. Qed.

(** C1. Credential resolution is the same in all operations. A key given
    by the caller, present and non-empty, is the one used; otherwise the
    value taken from the environment at load time is used; when neither is
    there, [getClient] throws the missing-key error, and so do
    [generateSpeech], [generateStoryboard] and [generateSceneImage], before
    any client is built or request sent. Whenever a key is resolved, each of
    the four operations builds its client from that key and sends its
    request through it. *)
Theorem C1_credential_resolution (apiKey : option jsstring) :
  (forall c k fallback, resolveCredential (Some (c :: k)) fallback = Some (c :: k))
  /\ (forall c k,
        resolveCredential None (Some (c :: k)) = Some (c :: k)
        /\ resolveCredential (Some []) (Some (c :: k)) = Some (c :: k))
  /\ (resolveCredential None None = None
      /\ resolveCredential None (Some []) = None
      /\ resolveCredential (Some []) None = None
      /\ resolveCredential (Some []) (Some []) = None)
  /\ getClient (VoiceName := VoiceName) API_KEY apiKey
     = match resolveCredential apiKey API_KEY with
       | Some key => ([EvConstruct key], Return {| apiKey := key |})
       | None => ([], Throw missingCredential)
       end
  /\ (forall text voice stylePrompt,
        match resolveCredential apiKey API_KEY with
        | Some key =>
            usesKey key (generateSpeech API_KEY remote text voice stylePrompt apiKey)
        | None =>
            generateSpeech API_KEY remote text voice stylePrompt apiKey
            = ([], Throw missingCredential)
        end)
  /\ (forall fullText,
        match resolveCredential apiKey API_KEY with
        | Some key => usesKey key (generateStoryboard API_KEY remote fullText apiKey)
        | None =>
            generateStoryboard API_KEY remote fullText apiKey
            = ([], Throw missingCredential)
        end)
  /\ (forall prompt referenceImageBase64,
        match resolveCredential apiKey API_KEY with
        | Some key =>
            usesKey key
              (generateSceneImage API_KEY remote prompt referenceImageBase64 apiKey)
        | None =>
            generateSceneImage API_KEY remote prompt referenceImageBase64 apiKey
            = ([], Throw missingCredential)
        end)
  /\ (forall base64Image,
        match resolveCredential apiKey API_KEY with
        | Some key =>
            usesKey key (checkImageForCharacter API_KEY remote base64Image apiKey)
        | None =>
            events (checkImageForCharacter API_KEY remote base64Image apiKey) = []
        end).
Proof.
  split; [reflexivity|]. split; [now split|]. split; [now repeat split|].
  split; [apply getClient_resolve|].
  split; [|split; [|split]].
  - intros text voice stylePrompt. rewrite generateSpeech_run.
    destruct (resolveCredential apiKey API_KEY) as [key|]; [|reflexivity].
    cbv zeta. destruct (remote _ _); apply usesKey_intro.
  - intros fullText. rewrite generateStoryboard_run.
    destruct (resolveCredential apiKey API_KEY) as [key|]; [|reflexivity].
    cbv zeta. destruct (remote _ _) as [response|e]; [|apply usesKey_intro].
    destruct (storyboardOfResponse response); apply usesKey_intro.
  - intros prompt ref. rewrite generateSceneImage_run.
    destruct (resolveCredential apiKey API_KEY) as [key|]; [|reflexivity].
    cbv zeta. destruct (remote _ _); apply usesKey_intro.
  - intros img. rewrite checkImageForCharacter_run.
    destruct (resolveCredential apiKey API_KEY) as [key|]; [|reflexivity].
    cbv zeta. destruct (remote _ _) as [response|e]; [|apply usesKey_intro].
    destruct (outcome (characterOfResponse response)); apply usesKey_intro.
Qed.

(** C2. Without a key from the caller and without a fallback from the
    environment, [checkImageForCharacter] returns [true] at once, for every
    image: no client is built and no request is sent (the list of events is
    empty), and nothing is thrown. *)
Theorem C2_character_check_without_credential
    (base64Image : jsstring) (apiKey : option jsstring) :
  resolveCredential apiKey API_KEY = None ->
  checkImageForCharacter API_KEY remote base64Image apiKey = ([], Return true).
Proof.
  intros Hnone. rewrite checkImageForCharacter_run. now rewrite Hnone.
Qed.

(** ** The character check never throws *)

(** C3. [checkImageForCharacter] always returns a boolean, whatever the
    image, the keys and the behaviour of the service. When the request is
    rejected the result is [true]; when the response text is absent or
    empty the result is [true]; when [JSON.parse] throws, or reading the
    field of the parsed value throws, the result is [true]. *)
Theorem C3_character_check_never_throws
    (base64Image : jsstring) (apiKey : option jsstring) :
  (exists b : bool,
      outcome (checkImageForCharacter API_KEY remote base64Image apiKey) = Return b)
  /\ (forall key e,
        resolveCredential apiKey API_KEY = Some key ->
        remote {| apiKey := key |} (characterRequestOf base64Image) = Throw e ->
        outcome (checkImageForCharacter API_KEY remote base64Image apiKey)
        = Return true)
  /\ (forall key response,
        resolveCredential apiKey API_KEY = Some key ->
        remote {| apiKey := key |} (characterRequestOf base64Image) = Return response ->
        truthyOpt (response_text response) = false ->
        outcome (checkImageForCharacter API_KEY remote base64Image apiKey)
        = Return true)
  /\ (forall key response text e,
        resolveCredential apiKey API_KEY = Some key ->
        remote {| apiKey := key |} (characterRequestOf base64Image) = Return response ->
        response_text response = Some text ->
        JSON_parse text = Throw e ->
        outcome (checkImageForCharacter API_KEY remote base64Image apiKey)
        = Return true)
  /\ (forall key response text json e,
        resolveCredential apiKey API_KEY = Some key ->
        remote {| apiKey := key |} (characterRequestOf base64Image) = Return response ->
        response_text response = Some text ->
        JSON_parse text = Return json ->
        getMember json (lit "hasCharacter") = Throw e ->
        outcome (checkImageForCharacter API_KEY remote base64Image apiKey)
        = Return true).
Proof.
  rewrite checkImageForCharacter_run.
  split; [|split; [|split; [|split]]].
  - destruct (resolveCredential apiKey API_KEY) as [key|]; [|now exists true].
    cbv zeta. destruct (remote _ _) as [response|e]; [|now exists true].
    destruct (outcome (characterOfResponse response)) as [b|e];
      [now exists b|now exists true].
  - intros key e Hk Hr. rewrite Hk. cbv zeta. now rewrite Hr.
  - intros key response Hk Hr Ht. rewrite Hk. cbv zeta. rewrite Hr.
    unfold characterOfResponse. destruct (response_text response) as [t|];
      [|reflexivity].
    simpl in Ht. rewrite Ht. reflexivity.
  - intros key response t e Hk Hr Ht Hp. rewrite Hk. cbv zeta. rewrite Hr.
    unfold characterOfResponse. rewrite Ht.
    destruct (truthy t); [|reflexivity]. cbn [negb].
    unfold liftResult, bind, outcome. now rewrite Hp.
  - intros key response t json e Hk Hr Ht Hp Hm. rewrite Hk. cbv zeta. rewrite Hr.
    unfold characterOfResponse. rewrite Ht.
    destruct (truthy t); [|reflexivity]. cbn [negb].
    unfold liftResult, bind, outcome. rewrite Hp. cbn [snd fst]. now rewrite Hm.
Qed.

(** ** Storyboard *)

Lemma storyboardOfResponse_absent (cs : option (list Candidate)) :
  storyboardOfResponse {| candidates := cs; response_text := None |}
  = Return (JArray []).
Proof. reflexivity. Qed.

(** C4. In [generateStoryboard], an absent response text is replaced by
    the literal of the empty array, so that the operation returns the empty
    sequence; a text that is not JSON once the fences are removed makes
    [JSON.parse] throw, and that error reaches the caller; a rejection by
    the service reaches the caller as well. *)
Theorem C4_storyboard_response_handling
    (fullText : jsstring) (apiKey : option jsstring) (key : jsstring) :
  resolveCredential apiKey API_KEY = Some key ->
  (forall response,
      remote {| apiKey := key |} (storyboardRequest fullText) = Return response ->
      response_text response = None ->
      outcome (generateStoryboard API_KEY remote fullText apiKey)
      = Return (JArray []))
  /\ (forall response e,
        remote {| apiKey := key |} (storyboardRequest fullText) = Return response ->
        JSON_parse (cleanFences (orElse (response_text response) (lit "[]")))
        = Throw e ->
        outcome (generateStoryboard API_KEY remote fullText apiKey) = Throw e)
  /\ (forall e,
        remote {| apiKey := key |} (storyboardRequest fullText) = Throw e ->
        outcome (generateStoryboard API_KEY remote fullText apiKey) = Throw e).
Proof.
  intros Hk. rewrite generateStoryboard_run, Hk. cbv zeta.
  split; [|split].
  - intros [cs t] Hr Ht. simpl in Ht. subst t. rewrite Hr.
    now rewrite storyboardOfResponse_absent.
  - intros response e Hr Hp. rewrite Hr.
    unfold storyboardOfResponse. now rewrite Hp.
  - intros e Hr. now rewrite Hr.
Qed.

(** ** Scene images *)

Lemma firstImage_find (ps : list Part) :
  firstImage ps = option_map rewrap (find carriesInlineData ps).
Proof.
  induction ps as [|part rest IH]; [reflexivity|].
  destruct part as [[[[[|c d]|] mt]|] txt]; try exact IH.
  cbn. unfold dataUri. now destruct mt as [[|c' m]|].
Qed.

(** C6. A data-URI built by [generateSceneImage] from a MIME type [m] and
    a base64 payload [p] (line 146), given back as [referenceImageBase64],
    is taken apart by lines 112-113 into the same [m] and the same [p]: the
    request then carries exactly that MIME type and that payload. *)
Theorem C6_data_uri_roundtrip (m p prompt : jsstring) :
  isMimeType m = true -> isBase64 p = true -> p <> [] ->
  firstImage [inlinePart (Some m) (Some p)] = Some (dataUri (Some m) p)
  /\ splitDataUri (dataUri (Some m) p) = (m, Some p)
  /\ sceneImageParts prompt (Some (dataUri (Some m) p))
     = [inlinePart (Some m) (Some p); textPart (styleInstruction ++ prompt)].
Proof.
  intros Hm Hp Hne.
  pose proof (isMimeType_roundtrip m p Hm Hp) as Hrt.
  split; [|split].
  - destruct p; [congruence|reflexivity].
  - exact Hrt.
  - unfold sceneImageParts. rewrite Hrt. reflexivity.
Qed.

(** C7. [generateSceneImage] goes through the parts of the first candidate
    in order and returns the first one that carries inline data, as the
    data-URI [data:<mimeType>;base64,<data>] where [image/png] stands in for
    a MIME type that is absent (undefined or the empty string); when no part
    carries inline data the operation returns [null], it does not throw. *)
Theorem C7_scene_image_extraction (prompt : jsstring)
    (referenceImageBase64 apiKey : option jsstring) (key : jsstring)
    (response : GenerateContentResponse) :
  resolveCredential apiKey API_KEY = Some key ->
  remote {| apiKey := key |}
    (sceneImageRequest (sceneImageParts prompt referenceImageBase64))
  = Return response ->
  outcome (generateSceneImage API_KEY remote prompt referenceImageBase64 apiKey)
  = Return (option_map rewrap (find carriesInlineData (responseParts response)))
  /\ (forall ps cs t,
        response = {| candidates := Some ({| content := Some {| parts := Some ps |} |} :: cs);
                      response_text := t |} ->
        responseParts response = ps)
  /\ (firstPart response = None -> responseParts response = [])
  /\ (forall part b d,
        inlineData part = Some b -> data b = Some d -> d <> [] ->
        rewrap part = lit "data:" ++ orElse (mimeType b) image_png
                      ++ lit ";base64," ++ d).
Proof.
  intros Hk Hr. rewrite generateSceneImage_run, Hk. cbv zeta. rewrite Hr.
  split; [|split; [|split]].
  - cbn [outcome snd]. now rewrite firstImage_find.
  - intros ps cs t ->. reflexivity.
  - destruct response as [[[|[[[[[|part ps]|]]|]] cs]|] t]; try reflexivity.
    discriminate.
  - intros part b d Hb Hd Hne. unfold rewrap. rewrite Hb, Hd.
    now destruct (mimeType b) as [[|c m]|].
Qed.

Lemma generateSceneImage_sends (prompt : jsstring)
    (referenceImageBase64 apiKey : option jsstring) (key : jsstring) :
  resolveCredential apiKey API_KEY = Some key ->
  exists req rest,
    events (generateSceneImage API_KEY remote prompt referenceImageBase64 apiKey)
    = EvConstruct key :: EvGenerateContent {| apiKey := key |} req :: rest
    /\ contents req
       = ContentsOne
           {| parts := Some (sceneImageParts prompt referenceImageBase64) |}.
Proof.
  intros Hk. rewrite generateSceneImage_run, Hk. cbv zeta.
  destruct (remote _ _); eexists; eexists; split; reflexivity.
Qed.



(** ** Speech *)

Lemma speechOfResponse_firstPart (response : GenerateContentResponse) :
  speechOfResponse response
  = match firstPart response with
    | Some part => inlinePayload part
    | None => None
    end.
Proof.
  destruct response as [[[|[[[[[|part ps]|]]|]] cs]|] t]; reflexivity.
Qed.

(** C9. [generateSpeech] looks at the first part of the first candidate
    only. When that part has inline data whose [data] is a non-empty string
    the operation returns that string. In every other case (no candidate,
    no content, no part, a first part without inline data, inline data
    without [data] or with the empty string) it returns [null], which is a
    normal return and not an error. A rejection by the service is thrown to
    the caller unchanged. *)
Theorem C9_speech_extraction (text : jsstring) (voice : VoiceName)
    (stylePrompt : jsstring) (apiKey : option jsstring) (key : jsstring) :
  resolveCredential apiKey API_KEY = Some key ->
  (forall response part b d,
      remote {| apiKey := key |} (speechRequest text voice stylePrompt)
      = Return response ->
      firstPart response = Some part ->
      inlineData part = Some b -> data b = Some d -> d <> [] ->
      outcome (generateSpeech API_KEY remote text voice stylePrompt apiKey)
      = Return (Some d))
  /\ (forall response,
        remote {| apiKey := key |} (speechRequest text voice stylePrompt)
        = Return response ->
        firstPart response = None ->
        outcome (generateSpeech API_KEY remote text voice stylePrompt apiKey)
        = Return None)
  /\ (forall response part,
        remote {| apiKey := key |} (speechRequest text voice stylePrompt)
        = Return response ->
        firstPart response = Some part ->
        inlineData part = None ->
        outcome (generateSpeech API_KEY remote text voice stylePrompt apiKey)
        = Return None)
  /\ (forall response part b,
        remote {| apiKey := key |} (speechRequest text voice stylePrompt)
        = Return response ->
        firstPart response = Some part ->
        inlineData part = Some b ->
        data b = None \/ data b = Some [] ->
        outcome (generateSpeech API_KEY remote text voice stylePrompt apiKey)
        = Return None)
  /\ (forall p ps cs t,
        firstPart {| candidates :=
                       Some ({| content := Some {| parts := Some (p :: ps) |} |} :: cs);
                     response_text := t |}
        = Some p)
  /\ (forall cs t,
        firstPart {| candidates := None; response_text := t |} = None
        /\ firstPart {| candidates := Some []; response_text := t |} = None
        /\ firstPart {| candidates := Some ({| content := None |} :: cs);
                        response_text := t |} = None
        /\ firstPart {| candidates :=
                          Some ({| content := Some {| parts := None |} |} :: cs);
                        response_text := t |} = None
        /\ firstPart {| candidates :=
                          Some ({| content := Some {| parts := Some [] |} |} :: cs);
                        response_text := t |} = None)
  /\ (forall e,
        remote {| apiKey := key |} (speechRequest text voice stylePrompt)
        = Throw e ->
        outcome (generateSpeech API_KEY remote text voice stylePrompt apiKey)
        = Throw e).
Proof.
  intros Hk. rewrite generateSpeech_run, Hk. cbv zeta.
  split; [|split; [|split; [|split; [|split; [|split]]]]].
  - intros response part b d Hr Hp Hb Hd Hne. rewrite Hr. cbn [outcome snd].
    rewrite speechOfResponse_firstPart, Hp. unfold inlinePayload.
    rewrite Hb, Hd. destruct d; [congruence|reflexivity].
  - intros response Hr Hp. rewrite Hr. cbn [outcome snd].
    now rewrite speechOfResponse_firstPart, Hp.
  - intros response part Hr Hp Hb. rewrite Hr. cbn [outcome snd].
    rewrite speechOfResponse_firstPart, Hp. unfold inlinePayload.
    now rewrite Hb.
  - intros response part b Hr Hp Hb Hd. rewrite Hr. cbn [outcome snd].
    rewrite speechOfResponse_firstPart, Hp. unfold inlinePayload.
    rewrite Hb. now destruct Hd as [-> | ->].
  - reflexivity.
  - intros cs t. now repeat split.
  - intros e Hr. now rewrite Hr.
Qed.

(** ** The character field *)

Lemma getMember_hasCharacter (json : JSON) :
  json <> JNull ->
  getMember json (lit "hasCharacter") = Return (hasCharacterField json).
Proof. destruct json; (congruence || reflexivity). Qed.

Lemma lookupMember_lacks (name : jsstring) (ms : list (jsstring * JSON)) :
  existsb (fun kv => jsstring_eqb (fst kv) name) ms = false ->
  lookupMember name ms = None.
Proof.
  induction ms as [|[k v] ms IH]; [reflexivity|]. simpl.
  intros H. apply orb_false_elim in H. destruct H as [Hk Hms].
  now rewrite (IH Hms), Hk.
Qed.

(** C10, amended. For a response whose text parses to a value other than
    [null], the result of [checkImageForCharacter] is the truthiness of the
    [hasCharacter] member of that value: [false] when the value has no such
    member, or when the member is [false], zero, [null] or the empty
    string; [true] for every other member, such as the string [false] or
    the number 1. For a response whose text parses to [null] the result is
    [true]. *)
Theorem C10_character_truthiness (base64Image : jsstring)
    (apiKey : option jsstring) (key : jsstring)
    (response : GenerateContentResponse) (text : jsstring) (json : JSON) :
  resolveCredential apiKey API_KEY = Some key ->
  remote {| apiKey := key |} (characterRequestOf base64Image) = Return response ->
  response_text response = Some text ->
  JSON_parse text = Return json ->
  (json <> JNull ->
   outcome (checkImageForCharacter API_KEY remote base64Image apiKey)
   = Return (toBoolean (hasCharacterField json)))
  /\ (json = JNull ->
      outcome (checkImageForCharacter API_KEY remote base64Image apiKey)
      = Return true)
  /\ (lacksHasCharacter json = true -> toBoolean (hasCharacterField json) = false)
  /\ toBoolean (Some (JBool false)) = false
  /\ toBoolean (Some (JNumber {| neg := false; mant := 0; exp10 := 0 |})) = false
  /\ toBoolean (Some JNull) = false
  /\ toBoolean (Some (JString [])) = false
  /\ toBoolean (Some (JString (lit "false"))) = true
  /\ toBoolean (Some (JNumber {| neg := false; mant := 1; exp10 := 0 |})) = true
  /\ (forall c s, toBoolean (Some (JString (c :: s))) = true)
  /\ (forall items, toBoolean (Some (JArray items)) = true)
  /\ (forall members, toBoolean (Some (JObject members)) = true).
Proof.
  intros Hk Hr Ht Hp.
  assert (Hne : text <> []) by (intros ->; discriminate Hp).
  assert (Hrun :
    outcome (checkImageForCharacter API_KEY remote base64Image apiKey)
    = match getMember json (lit "hasCharacter") with
      | Return v => Return (toBoolean v)
      | Throw _ => Return true
      end).
  { rewrite checkImageForCharacter_run, Hk. cbv zeta. rewrite Hr.
    unfold characterOfResponse. rewrite Ht.
    destruct text; [congruence|]. cbn [truthy negb].
    unfold liftResult, bind, outcome. rewrite Hp. cbn [snd fst].
    now destruct (getMember json (lit "hasCharacter")). }
  split; [|split; [|split; [|repeat split]]].
  - intros Hj. now rewrite Hrun, (getMember_hasCharacter json Hj).
  - intros ->. exact Hrun.
  - destruct json; try reflexivity. cbn [lacksHasCharacter hasCharacterField].
    intros H. apply negb_true_iff in H.
    now rewrite (lookupMember_lacks _ _ H).
Qed.

End GatewayProperties.

(** ** Fenced storyboard texts *)

Lemma storyboardOfResponse_fenced (cs cs' : option (list Candidate))
    (t w0 w1 w2 w3 : jsstring) :
  t <> [] ->
  allSpace w0 = true -> allSpace w1 = true ->
  allSpace w2 = true -> allSpace w3 = true ->
  storyboardOfResponse
    {| candidates := cs; response_text := Some (wrapFences w0 w1 t w2 w3) |}
  = storyboardOfResponse {| candidates := cs'; response_text := Some t |}.
Proof.
  intros Hne H0 H1 H2 H3. unfold storyboardOfResponse. cbn [response_text].
  replace (orElse (Some (wrapFences w0 w1 t w2 w3)) (lit "[]"))
    with (wrapFences w0 w1 t w2 w3) by (now destruct w0).
  replace (orElse (Some t) (lit "[]")) with t by (destruct t; [congruence|reflexivity]).
  now rewrite cleanFences_wrap.
Qed.

(** C5, amended. For every non-empty response text [t], the storyboard
    obtained when the service answers [t] between code fences (the opening
    fence with its [json] tag before, the closing fence after, white space
    allowed around each) is the storyboard obtained when the service
    answers [t] itself: the same value, or the same error. *)
Theorem C5_fenced_storyboard (VoiceName : Type) (API_KEY : option jsstring)
    (remote remote' : GoogleGenAI -> Request VoiceName -> Result GenerateContentResponse)
    (fullText : jsstring) (apiKey : option jsstring) (key : jsstring)
    (cs cs' : option (list Candidate)) (t w0 w1 w2 w3 : jsstring) :
  t <> [] ->
  allSpace w0 = true -> allSpace w1 = true ->
  allSpace w2 = true -> allSpace w3 = true ->
  resolveCredential apiKey API_KEY = Some key ->
  remote {| apiKey := key |} (storyboardRequest fullText)
  = Return {| candidates := cs; response_text := Some (wrapFences w0 w1 t w2 w3) |} ->
  remote' {| apiKey := key |} (storyboardRequest fullText)
  = Return {| candidates := cs'; response_text := Some t |} ->
  outcome (generateStoryboard API_KEY remote fullText apiKey)
  = outcome (generateStoryboard API_KEY remote' fullText apiKey).
Proof.
  intros Hne H0 H1 H2 H3 Hk Hr Hr'.
  rewrite !generateStoryboard_run, Hk. cbv zeta. rewrite Hr, Hr'.
  rewrite (storyboardOfResponse_fenced cs cs' t w0 w1 w2 w3 Hne H0 H1 H2 H3).
  now destruct (storyboardOfResponse _).
Qed.

(** ** Examples *)

Example split_data_uri :
  splitDataUri (lit "data:image/jpeg;base64,AAAA")
  = (lit "image/jpeg", Some (lit "AAAA")).
Proof. reflexivity. Qed.

Example split_without_comma :
  splitDataUri (lit "AAAA") = (image_png, None).
Proof. reflexivity. Qed.

Example split_empty_mime :
  splitDataUri (lit "data:;base64,AAAA") = (image_png, Some (lit "AAAA")).
Proof. reflexivity. Qed.

Example clean_fenced_array :
  cleanFences (wrapFences [] [10%N] (lit "[1, 2]") [10%N] []) = lit "[1, 2]".
Proof. reflexivity. Qed.

Example parse_object :
  JSON_parse (lit "{" ++ quoted (lit "hasCharacter") ++ lit ": true}")
  = Return (JObject [(lit "hasCharacter", JBool true)]).
Proof. reflexivity. Qed.

Example parse_trailing_comma : JSON_parse (lit "[1,]") = Throw SyntaxError.
Proof. reflexivity. Qed.

Example parse_leading_zero : JSON_parse (lit "01") = Throw SyntaxError.
Proof. reflexivity. Qed.

Example tiny_number_is_falsy :
  option_map (fun v => toBoolean (Some v))
    (match JSON_parse (lit "1e-400") with Return v => Some v | Throw _ => None end)
  = Some false.
Proof. vm_compute. reflexivity. Qed.

Example least_double_is_truthy :
  option_map (fun v => toBoolean (Some v))
    (match JSON_parse (lit "5e-324") with Return v => Some v | Throw _ => None end)
  = Some true.
Proof. vm_compute. reflexivity. Qed.

(** The empty text: answered bare, it is replaced by the literal of the
    empty array and the storyboard is empty; answered between fences, the
    text is not empty, nothing is left of it after cleaning, and
    [JSON.parse] throws. *)
Lemma C5_counterexample :
  outcome (generateStoryboard None
             (answering (textResponse (wrapFences [] [10%N] [] [10%N] [])))
             (lit "The hero drew his sword.") (Some (lit "k")))
  = Throw SyntaxError
  /\ outcome (generateStoryboard None (answering (textResponse []))
                (lit "The hero drew his sword.") (Some (lit "k")))
     = Return (JArray []).
Proof. split; vm_compute; reflexivity. Qed.

Lemma C5_witness :
  outcome (generateStoryboard None
             (answering (textResponse (wrapFences [] [10%N] (lit "[]") [10%N] [])))
             (lit "The hero drew his sword.") (Some (lit "k")))
  = outcome (generateStoryboard None (answering (textResponse (lit "[]")))
               (lit "The hero drew his sword.") (Some (lit "k"))).
Proof.
  apply (C5_fenced_storyboard unit None
           (answering (textResponse (wrapFences [] [10%N] (lit "[]") [10%N] [])))
           (answering (textResponse (lit "[]")))
           (lit "The hero drew his sword.") (Some (lit "k")) (lit "k")
           None None (lit "[]") [] [10%N] [10%N] []);
    solve [discriminate | reflexivity].
Defined.

Lemma C2_witness :
  checkImageForCharacter (Some []) (rejecting (Error []))
    (lit "data:image/png;base64,AAAA") None
  = ([], Return true).
Proof.
  apply (C2_character_check_without_credential unit (Some [])
           (rejecting (Error [])) (lit "data:image/png;base64,AAAA") None).
  reflexivity.
Defined.

Lemma C4_witness :
  outcome (generateStoryboard None
             (answering {| candidates := None; response_text := None |})
             (lit "Once upon a time.") (Some (lit "k")))
  = Return (JArray []).
Proof.
  apply (proj1 (C4_storyboard_response_handling unit None
           (answering {| candidates := None; response_text := None |})
           (lit "Once upon a time.") (Some (lit "k")) (lit "k") eq_refl)
         {| candidates := None; response_text := None |});
    reflexivity.
Defined.

Lemma C3_witness :
  outcome (checkImageForCharacter None (rejecting (ApiError 503 []))
             (lit "data:image/png;base64,AAAA") (Some (lit "k")))
  = Return true
  /\ outcome (checkImageForCharacter None (answering (textResponse (lit "not json")))
                (lit "data:image/png;base64,AAAA") (Some (lit "k")))
     = Return true
  /\ outcome (checkImageForCharacter None (answering (textResponse (lit "null")))
                (lit "data:image/png;base64,AAAA") (Some (lit "k")))
     = Return true.
Proof.
  split; [|split].
  - destruct (C3_character_check_never_throws unit None (rejecting (ApiError 503 []))
                (lit "data:image/png;base64,AAAA") (Some (lit "k")))
      as (_ & H & _).
    apply (H (lit "k") (ApiError 503 [])); reflexivity.
  - destruct (C3_character_check_never_throws unit None
                (answering (textResponse (lit "not json")))
                (lit "data:image/png;base64,AAAA") (Some (lit "k")))
      as (_ & _ & _ & H & _).
    apply (H (lit "k") (textResponse (lit "not json")) (lit "not json") SyntaxError);
      reflexivity.
  - destruct (C3_character_check_never_throws unit None
                (answering (textResponse (lit "null")))
                (lit "data:image/png;base64,AAAA") (Some (lit "k")))
      as (_ & _ & _ & _ & H).
    apply (H (lit "k") (textResponse (lit "null")) (lit "null") JNull TypeError);
      reflexivity.
Defined.

Lemma C6_witness :
  firstImage [inlinePart (Some (lit "image/jpeg")) (Some (lit "AAAA"))]
  = Some (lit "data:image/jpeg;base64,AAAA")
  /\ splitDataUri (lit "data:image/jpeg;base64,AAAA")
     = (lit "image/jpeg", Some (lit "AAAA"))
  /\ sceneImageParts (lit "a red fox in snow")
       (Some (lit "data:image/jpeg;base64,AAAA"))
     = [inlinePart (Some (lit "image/jpeg")) (Some (lit "AAAA"));
        textPart (styleInstruction ++ lit "a red fox in snow")].
Proof.
  apply (C6_data_uri_roundtrip (lit "image/jpeg") (lit "AAAA")
           (lit "a red fox in snow"));
    solve [discriminate | reflexivity].
Defined.

Lemma C7_witness :
  outcome (generateSceneImage None
             (answering (partsResponse
                [textPart (lit "Here is the scene.");
                 inlinePart None (Some (lit "QUJD"));
                 inlinePart (Some (lit "image/jpeg")) (Some (lit "REVG"))]))
             (lit "a red fox in snow") None (Some (lit "k")))
  = Return (Some (lit "data:image/png;base64,QUJD")).
Proof.
  apply (proj1 (C7_scene_image_extraction unit None
           (answering (partsResponse
              [textPart (lit "Here is the scene.");
               inlinePart None (Some (lit "QUJD"));
               inlinePart (Some (lit "image/jpeg")) (Some (lit "REVG"))]))
           (lit "a red fox in snow") None (Some (lit "k")) (lit "k")
           (partsResponse
              [textPart (lit "Here is the scene.");
               inlinePart None (Some (lit "QUJD"));
               inlinePart (Some (lit "image/jpeg")) (Some (lit "REVG"))])
           eq_refl eq_refl)).
Defined.


Lemma C9_witness :
  outcome (generateSpeech None
             (answering (partsResponse
                [inlinePart (Some (lit "audio/L16;codec=pcm;rate=24000"))
                   (Some (lit "UklGRg=="))]))
             (lit "Once upon a time.") tt (lit "Read slowly.") (Some (lit "k")))
  = Return (Some (lit "UklGRg=="))
  /\ outcome (generateSpeech None
                (answering (partsResponse [textPart (lit "No audio.")]))
                (lit "Once upon a time.") tt (lit "Read slowly.") (Some (lit "k")))
     = Return None
  /\ outcome (generateSpeech None
                (answering (partsResponse [inlinePart (Some (lit "audio/L16")) (Some [])]))
                (lit "Once upon a time.") tt (lit "Read slowly.") (Some (lit "k")))
     = Return None
  /\ outcome (generateSpeech None (rejecting (ApiError 429 []))
                (lit "Once upon a time.") tt (lit "Read slowly.") (Some (lit "k")))
     = Throw (ApiError 429 []).
Proof.
  split; [|split; [|split]].
  - destruct (C9_speech_extraction unit None
                (answering (partsResponse
                   [inlinePart (Some (lit "audio/L16;codec=pcm;rate=24000"))
                      (Some (lit "UklGRg=="))]))
                (lit "Once upon a time.") tt (lit "Read slowly.") (Some (lit "k"))
                (lit "k") eq_refl) as (H & _).
    apply (H (partsResponse
                [inlinePart (Some (lit "audio/L16;codec=pcm;rate=24000"))
                   (Some (lit "UklGRg=="))])
             (inlinePart (Some (lit "audio/L16;codec=pcm;rate=24000"))
                (Some (lit "UklGRg==")))
             {| data := Some (lit "UklGRg==");
                mimeType := Some (lit "audio/L16;codec=pcm;rate=24000") |}
             (lit "UklGRg=="));
      solve [reflexivity | discriminate].
  - destruct (C9_speech_extraction unit None
                (answering (partsResponse [textPart (lit "No audio.")]))
                (lit "Once upon a time.") tt (lit "Read slowly.") (Some (lit "k"))
                (lit "k") eq_refl) as (_ & _ & H & _).
    apply (H (partsResponse [textPart (lit "No audio.")])
             (textPart (lit "No audio."))); reflexivity.
  - destruct (C9_speech_extraction unit None
                (answering (partsResponse [inlinePart (Some (lit "audio/L16")) (Some [])]))
                (lit "Once upon a time.") tt (lit "Read slowly.") (Some (lit "k"))
                (lit "k") eq_refl) as (_ & _ & _ & H & _).
    apply (H (partsResponse [inlinePart (Some (lit "audio/L16")) (Some [])])
             (inlinePart (Some (lit "audio/L16")) (Some []))
             {| data := Some []; mimeType := Some (lit "audio/L16") |});
      solve [reflexivity | now right].
  - destruct (C9_speech_extraction unit None (rejecting (ApiError 429 []))
                (lit "Once upon a time.") tt (lit "Read slowly.") (Some (lit "k"))
                (lit "k") eq_refl) as (_ & _ & _ & _ & _ & _ & H).
    apply (H (ApiError 429 [])). reflexivity.
Defined.

(** The text [null] is JSON and has no [hasCharacter] member; reading the
    member of [null] throws, the error is caught, and the result is [true],
    not [false]. *)
Lemma C10_counterexample :
  JSON_parse (lit "null") = Return JNull
  /\ lacksHasCharacter JNull = true
  /\ outcome (checkImageForCharacter None (answering (textResponse (lit "null")))
                (lit "data:image/png;base64,AAAA") (Some (lit "k")))
     = Return true.
Proof. repeat split; vm_compute; reflexivity. Qed.

Lemma C10_witness :
  outcome (checkImageForCharacter None
             (answering (textResponse
                (lit "{" ++ quoted (lit "hasCharacter") ++ lit ": "
                 ++ quoted (lit "false") ++ lit "}")))
             (lit "data:image/png;base64,AAAA") (Some (lit "k")))
  = Return true
  /\ outcome (checkImageForCharacter None (answering (textResponse (lit "{}")))
                (lit "data:image/png;base64,AAAA") (Some (lit "k")))
     = Return false.
Proof.
  split.
  - apply (proj1 (C10_character_truthiness unit None
             (answering (textResponse
                (lit "{" ++ quoted (lit "hasCharacter") ++ lit ": "
                 ++ quoted (lit "false") ++ lit "}")))
             (lit "data:image/png;base64,AAAA") (Some (lit "k")) (lit "k")
             (textResponse
                (lit "{" ++ quoted (lit "hasCharacter") ++ lit ": "
                 ++ quoted (lit "false") ++ lit "}"))
             (lit "{" ++ quoted (lit "hasCharacter") ++ lit ": "
              ++ quoted (lit "false") ++ lit "}")
             (JObject [(lit "hasCharacter", JString (lit "false"))])
             eq_refl eq_refl eq_refl eq_refl)).
    discriminate.
  - apply (proj1 (C10_character_truthiness unit None
             (answering (textResponse (lit "{}")))
             (lit "data:image/png;base64,AAAA") (Some (lit "k")) (lit "k")
             (textResponse (lit "{}")) (lit "{}") (JObject [])
             eq_refl eq_refl eq_refl eq_refl)).
    discriminate.
Defined.

(** * Further properties of the operations *)

(** ** One round trip, one log line *)

Lemma round_trip_shape (VoiceName : Type) (API_KEY : option jsstring)
    (remote : GoogleGenAI -> Request VoiceName -> Result GenerateContentResponse)
    (apiKey : option jsstring) :
  (forall text voice stylePrompt,
      oneRoundTrip (resolveCredential apiKey API_KEY)
        (speechRequest text voice stylePrompt) speechLabel
        (generateSpeech API_KEY remote text voice stylePrompt apiKey))
  /\ (forall fullText,
        oneRoundTrip (resolveCredential apiKey API_KEY)
          (storyboardRequest fullText) storyboardLabel
          (generateStoryboard API_KEY remote fullText apiKey))
  /\ (forall prompt ref,
        oneRoundTrip (resolveCredential apiKey API_KEY)
          (sceneImageRequest (sceneImageParts prompt ref)) sceneImageLabel
          (generateSceneImage API_KEY remote prompt ref apiKey))
  /\ (forall base64Image,
        oneRoundTrip (resolveCredential apiKey API_KEY)
          (characterRequestOf base64Image) characterLabel
          (checkImageForCharacter API_KEY remote base64Image apiKey)).
Proof.
  unfold oneRoundTrip. split; [|split; [|split]].
  - intros text voice stylePrompt. rewrite generateSpeech_run.
    destruct (resolveCredential apiKey API_KEY) as [key|]; [|reflexivity].
    cbv zeta. destruct (remote _ _) as [response|e];
      [now left|right; now exists e].
  - intros fullText. rewrite generateStoryboard_run.
    destruct (resolveCredential apiKey API_KEY) as [key|]; [|reflexivity].
    cbv zeta. destruct (remote _ _) as [response|e]; [|right; now exists e].
    destruct (storyboardOfResponse response) as [v|e];
      [now left|right; now exists e].
  - intros prompt ref. rewrite generateSceneImage_run.
    destruct (resolveCredential apiKey API_KEY) as [key|]; [|reflexivity].
    cbv zeta. destruct (remote _ _) as [response|e];
      [now left|right; now exists e].
  - intros img. rewrite checkImageForCharacter_run.
    destruct (resolveCredential apiKey API_KEY) as [key|]; [|reflexivity].
    cbv zeta. destruct (remote _ _) as [response|e]; [|right; now exists e].
    destruct (outcome (characterOfResponse response)) as [b|e];
      [now left|right; now exists e].
Qed.

(** Each of the four operations performs at most one round trip: without a
    key nothing happens; with a key one client is built from it, one
    request (the operation's own) is sent through it, and at most one line
    is logged, under the label of the operation. There is no second
    request. *)
Theorem operations_one_round_trip (VoiceName : Type) (API_KEY : option jsstring)
    (remote : GoogleGenAI -> Request VoiceName -> Result GenerateContentResponse)
    (apiKey : option jsstring) :
  (forall text voice stylePrompt,
      oneRoundTrip (resolveCredential apiKey API_KEY)
        (speechRequest text voice stylePrompt) speechLabel
        (generateSpeech API_KEY remote text voice stylePrompt apiKey))
  /\ (forall fullText,
        oneRoundTrip (resolveCredential apiKey API_KEY)
          (storyboardRequest fullText) storyboardLabel
          (generateStoryboard API_KEY remote fullText apiKey))
  /\ (forall prompt ref,
        oneRoundTrip (resolveCredential apiKey API_KEY)
          (sceneImageRequest (sceneImageParts prompt ref)) sceneImageLabel
          (generateSceneImage API_KEY remote prompt ref apiKey))
  /\ (forall base64Image,
        oneRoundTrip (resolveCredential apiKey API_KEY)
          (characterRequestOf base64Image) characterLabel
          (checkImageForCharacter API_KEY remote base64Image apiKey)).
Proof.
  unfold oneRoundTrip. split; [|split; [|split]].
  - intros text voice stylePrompt. rewrite generateSpeech_run.
    destruct (resolveCredential apiKey API_KEY) as [key|]; [|reflexivity].
    cbv zeta. destruct (remote _ _) as [response|e];
      [now left|right; now exists e].
  - intros fullText. rewrite generateStoryboard_run.
    destruct (resolveCredential apiKey API_KEY) as [key|]; [|reflexivity].
    cbv zeta. destruct (remote _ _) as [response|e]; [|right; now exists e].
    destruct (storyboardOfResponse response) as [v|e];
      [now left|right; now exists e].
  - intros prompt ref. rewrite generateSceneImage_run.
    destruct (resolveCredential apiKey API_KEY) as [key|]; [|reflexivity].
    cbv zeta. destruct (remote _ _) as [response|e];
      [now left|right; now exists e].
  - intros img. rewrite checkImageForCharacter_run.
    destruct (resolveCredential apiKey API_KEY) as [key|]; [|reflexivity].
    cbv zeta. destruct (remote _ _) as [response|e]; [|right; now exists e].
    destruct (outcome (characterOfResponse response)) as [b|e];
      [now left|right; now exists e].
Qed.

Lemma resolveCredential_nonempty (explicit fallback : option jsstring)
    (key : jsstring) :
  resolveCredential explicit fallback = Some key -> key <> [].
Proof.
  destruct explicit as [[|c k]|]; destruct fallback as [[|c' k']|]; simpl;
    intros H; try discriminate; injection H as <-; discriminate.
Qed.

Lemma oneRoundTrip_request {VoiceName A : Type} (resolved : option jsstring)
    (req : Request VoiceName) (label : jsstring) (m : M VoiceName A)
    (ai : GoogleGenAI) (req' : Request VoiceName) :
  oneRoundTrip resolved req label m ->
  In (EvGenerateContent ai req') (events m) ->
  resolved = Some (apiKey ai) /\ req' = req.
Proof.
  unfold oneRoundTrip. destruct resolved as [key|].
  - intros [H|[e H]] Hin; rewrite H in Hin; simpl in Hin;
      repeat (destruct Hin as [Hin|Hin]; try discriminate Hin; try contradiction);
      injection Hin as <- <-; now split.
  - intros H Hin. rewrite H in Hin. contradiction.
Qed.

(** No operation ever sends a request through a client whose key is the
    empty string: the key of every request sent is the resolved key, the
    caller's when that one is non-empty. *)
Theorem requests_carry_nonempty_key (VoiceName : Type) (API_KEY : option jsstring)
    (remote : GoogleGenAI -> Request VoiceName -> Result GenerateContentResponse)
    (callerKey : option jsstring) (ai : GoogleGenAI) (req : Request VoiceName) :
  (forall text voice stylePrompt,
      In (EvGenerateContent ai req)
         (events (generateSpeech API_KEY remote text voice stylePrompt callerKey)) ->
      apiKey ai <> [] /\ resolveCredential callerKey API_KEY = Some (apiKey ai))
  /\ (forall fullText,
        In (EvGenerateContent ai req)
           (events (generateStoryboard API_KEY remote fullText callerKey)) ->
        apiKey ai <> [] /\ resolveCredential callerKey API_KEY = Some (apiKey ai))
  /\ (forall prompt ref,
        In (EvGenerateContent ai req)
           (events (generateSceneImage API_KEY remote prompt ref callerKey)) ->
        apiKey ai <> [] /\ resolveCredential callerKey API_KEY = Some (apiKey ai))
  /\ (forall base64Image,
        In (EvGenerateContent ai req)
           (events (checkImageForCharacter API_KEY remote base64Image callerKey)) ->
        apiKey ai <> [] /\ resolveCredential callerKey API_KEY = Some (apiKey ai)).
Proof.
  destruct (round_trip_shape VoiceName API_KEY remote callerKey)
    as (Hs & Hb & Hi & Hc).
  split; [|split; [|split]].
  - intros text voice stylePrompt Hin.
    destruct (oneRoundTrip_request _ _ _ _ ai req (Hs text voice stylePrompt) Hin)
      as [Hk _].
    split; [exact (resolveCredential_nonempty _ _ _ Hk)|exact Hk].
  - intros fullText Hin.
    destruct (oneRoundTrip_request _ _ _ _ ai req (Hb fullText) Hin) as [Hk _].
    split; [exact (resolveCredential_nonempty _ _ _ Hk)|exact Hk].
  - intros prompt ref Hin.
    destruct (oneRoundTrip_request _ _ _ _ ai req (Hi prompt ref) Hin) as [Hk _].
    split; [exact (resolveCredential_nonempty _ _ _ Hk)|exact Hk].
  - intros img Hin.
    destruct (oneRoundTrip_request _ _ _ _ ai req (Hc img) Hin) as [Hk _].
    split; [exact (resolveCredential_nonempty _ _ _ Hk)|exact Hk].
Qed.

(** ** Errors thrown and errors logged *)

(** In [generateSpeech], [generateStoryboard] and [generateSceneImage] an
    error that reaches the caller is either the missing-key error, thrown
    before anything happened and not logged, or an error of the round trip,
    logged once under the label of the operation, and the error logged is
    the very error thrown. A call that returns has logged nothing. *)
Theorem thrown_errors_are_logged (VoiceName : Type) (API_KEY : option jsstring)
    (remote : GoogleGenAI -> Request VoiceName -> Result GenerateContentResponse)
    (apiKey : option jsstring) :
  (forall text voice stylePrompt,
      let m := generateSpeech API_KEY remote text voice stylePrompt apiKey in
      let req := speechRequest text voice stylePrompt in
      (forall e, outcome m = Throw e ->
         (resolveCredential apiKey API_KEY = None
          /\ e = missingCredential /\ events m = [])
         \/ (exists key, resolveCredential apiKey API_KEY = Some key
                         /\ events m = failedRoundTrip key req speechLabel e))
      /\ (forall v, outcome m = Return v ->
            exists key, events m = roundTrip key req))
  /\ (forall fullText,
        let m := generateStoryboard API_KEY remote fullText apiKey in
        let req := storyboardRequest fullText in
        (forall e, outcome m = Throw e ->
           (resolveCredential apiKey API_KEY = None
            /\ e = missingCredential /\ events m = [])
           \/ (exists key, resolveCredential apiKey API_KEY = Some key
                           /\ events m = failedRoundTrip key req storyboardLabel e))
        /\ (forall v, outcome m = Return v ->
              exists key, events m = roundTrip key req))
  /\ (forall prompt ref,
        let m := generateSceneImage API_KEY remote prompt ref apiKey in
        let req := sceneImageRequest (sceneImageParts prompt ref) in
        (forall e, outcome m = Throw e ->
           (resolveCredential apiKey API_KEY = None
            /\ e = missingCredential /\ events m = [])
           \/ (exists key, resolveCredential apiKey API_KEY = Some key
                           /\ events m = failedRoundTrip key req sceneImageLabel e))
        /\ (forall v, outcome m = Return v ->
              exists key, events m = roundTrip key req)).
Proof.
  split; [|split].
  - intros text voice stylePrompt m req. subst m req.
    rewrite generateSpeech_run.
    destruct (resolveCredential apiKey API_KEY) as [key|].
    + cbv zeta. destruct (remote _ _) as [response|e0]; split.
      * intros e H. discriminate H.
      * intros v _. now exists key.
      * intros e H. injection H as <-. right. exists key. now split.
      * intros v H. discriminate H.
    + split.
      * intros e H. injection H as <-. left. now repeat split.
      * intros v H. discriminate H.
  - intros fullText m req. subst m req.
    rewrite generateStoryboard_run.
    destruct (resolveCredential apiKey API_KEY) as [key|].
    + cbv zeta. destruct (remote _ _) as [response|e0].
      * destruct (storyboardOfResponse response) as [segments|e0]; split.
        -- intros e H. discriminate H.
        -- intros v _. now exists key.
        -- intros e H. injection H as <-. right. exists key. now split.
        -- intros v H. discriminate H.
      * split.
        -- intros e H. injection H as <-. right. exists key. now split.
        -- intros v H. discriminate H.
    + split.
      * intros e H. injection H as <-. left. now repeat split.
      * intros v H. discriminate H.
  - intros prompt ref m req. subst m req.
    rewrite generateSceneImage_run.
    destruct (resolveCredential apiKey API_KEY) as [key|].
    + cbv zeta. destruct (remote _ _) as [response|e0]; split.
      * intros e H. discriminate H.
      * intros v _. now exists key.
      * intros e H. injection H as <-. right. exists key. now split.
      * intros v H. discriminate H.
    + split.
      * intros e H. injection H as <-. left. now repeat split.
      * intros v H. discriminate H.
Qed.

Lemma characterOfResponse_outcome (VoiceName : Type)
    (response : GenerateContentResponse) :
  outcome (characterOfResponse (VoiceName := VoiceName) response)
  = match response_text response with
    | None => Return true
    | Some [] => Return true
    | Some (c :: t) =>
        match JSON_parse (c :: t) with
        | Throw e => Throw e
        | Return JNull => Throw TypeError
        | Return json => Return (toBoolean (hasCharacterField json))
        end
    end.
Proof.
  unfold characterOfResponse.
  destruct (response_text response) as [[|c t]|]; try reflexivity.
  cbn [truthy negb]. unfold liftResult, bind, outcome.
  destruct (JSON_parse (c :: t)) as [json|e]; [|reflexivity].
  now destruct json.
Qed.

(** [checkImageForCharacter] returns [false] only on the word of the
    service: a key was resolved, the request went through, the response
    text parsed to a value other than [null] whose [hasCharacter] member is
    missing or falsy; and nothing was logged. Every failure gives [true]. *)
Theorem character_false_only_from_service (VoiceName : Type)
    (API_KEY : option jsstring)
    (remote : GoogleGenAI -> Request VoiceName -> Result GenerateContentResponse)
    (base64Image : jsstring) (apiKey : option jsstring) :
  outcome (checkImageForCharacter API_KEY remote base64Image apiKey)
  = Return false ->
  exists key response text json,
    resolveCredential apiKey API_KEY = Some key
    /\ remote {| apiKey := key |} (characterRequestOf base64Image) = Return response
    /\ response_text response = Some text
    /\ JSON_parse text = Return json
    /\ json <> JNull
    /\ toBoolean (hasCharacterField json) = false
    /\ events (checkImageForCharacter API_KEY remote base64Image apiKey)
       = roundTrip key (characterRequestOf base64Image).
Proof.
  rewrite checkImageForCharacter_run.
  destruct (resolveCredential apiKey API_KEY) as [key|]; [|discriminate].
  cbv zeta. destruct (remote _ _) as [response|e] eqn:Hr; [|discriminate].
  rewrite characterOfResponse_outcome.
  destruct (response_text response) as [[|c t]|] eqn:Ht; try discriminate.
  destruct (JSON_parse (c :: t)) as [json|e] eqn:Hp; [|discriminate].
  intros H. exists key, response, (c :: t), json.
  destruct json; try discriminate H;
    (repeat split; try assumption; try reflexivity; try discriminate;
     cbn [outcome snd] in H; congruence).
Qed.

(** Every error [checkImageForCharacter] swallows is logged, once, under
    its label, and comes with the result [true]; the error is the rejection
    of the service, the [SyntaxError] of [JSON.parse], or the [TypeError]
    of reading a member of [null]. *)
Theorem character_swallowed_errors (VoiceName : Type)
    (API_KEY : option jsstring)
    (remote : GoogleGenAI -> Request VoiceName -> Result GenerateContentResponse)
    (base64Image : jsstring) (apiKey : option jsstring)
    (label : jsstring) (e : Exn) :
  In (EvConsoleError label e)
     (events (checkImageForCharacter API_KEY remote base64Image apiKey)) ->
  label = characterLabel
  /\ outcome (checkImageForCharacter API_KEY remote base64Image apiKey)
     = Return true
  /\ (exists key,
        resolveCredential apiKey API_KEY = Some key
        /\ events (checkImageForCharacter API_KEY remote base64Image apiKey)
           = failedRoundTrip key (characterRequestOf base64Image) characterLabel e
        /\ (remote {| apiKey := key |} (characterRequestOf base64Image) = Throw e
            \/ e = SyntaxError \/ e = TypeError)).
Proof.
  rewrite checkImageForCharacter_run.
  destruct (resolveCredential apiKey API_KEY) as [key|]; [|intros []].
  cbv zeta. destruct (remote _ _) as [response|e0] eqn:Hr.
  - rewrite characterOfResponse_outcome.
    destruct (response_text response) as [[|c t]|];
      try (intros [H|[H|[]]]; discriminate H).
    destruct (JSON_parse (c :: t)) as [json|e1] eqn:Hp.
    + destruct json;
        try (intros [H|[H|[]]]; discriminate H).
      intros [H|[H|[H|[]]]]; try discriminate H. injection H as <- <-.
      split; [reflexivity|]. split; [reflexivity|].
      exists key. repeat split. right. now right.
    + assert (He1 : e1 = SyntaxError).
      { unfold JSON_parse in Hp.
        destruct (parseValue _ _) as [v rest| |]; try congruence.
        destruct (skipWs rest); congruence. }
      intros [H|[H|[H|[]]]]; try discriminate H. injection H as <- <-.
      split; [reflexivity|]. split; [reflexivity|].
      exists key. repeat split. right. now left.
  - intros [H|[H|[H|[]]]]; try discriminate H. injection H as <- <-.
    split; [reflexivity|]. split; [reflexivity|].
    exists key. repeat split. now left.
Qed.

(** ** What the header parse and the split can give *)








(** ** What the operations can return *)

Lemma inlinePayload_some (part : Part) (d : jsstring) :
  inlinePayload part = Some d ->
  d <> [] /\ exists b, inlineData part = Some b /\ data b = Some d.
Proof.
  unfold inlinePayload. destruct (inlineData part) as [b|]; [|discriminate].
  destruct (data b) as [[|c d']|] eqn:Hd; try discriminate.
  cbn [truthy]. intros H. injection H as <-.
  split; [discriminate|]. now exists b.
Qed.

Lemma firstImage_some (ps : list Part) (uri : jsstring) :
  firstImage ps = Some uri ->
  exists part b p,
    In part ps /\ inlineData part = Some b /\ data b = Some p /\ p <> []
    /\ uri = dataUri (mimeType b) p.
Proof.
  induction ps as [|part rest IH]; [discriminate|].
  assert (Hrec : firstImage rest = Some uri ->
                 exists part' b p,
                   In part' (part :: rest) /\ inlineData part' = Some b
                   /\ data b = Some p /\ p <> [] /\ uri = dataUri (mimeType b) p).
  { intros H. destruct (IH H) as (part' & b & p & Hin & Hrest).
    exists part', b, p. split; [now right|exact Hrest]. }
  cbn [firstImage].
  destruct (inlineData part) as [b|] eqn:Hb; [|exact Hrec].
  destruct (data b) as [[|c d]|] eqn:Hd; try exact Hrec.
  cbn [truthy]. intros H. injection H as <-.
  exists part, b, (c :: d). repeat split; try assumption; [now left|discriminate].
Qed.

(** [generateSpeech] returns [null] or a non-empty string, never the empty
    string; a string returned is the [data] of the inline data of the first
    part of the first candidate of the response received. *)
Theorem speech_result_is_nonempty (VoiceName : Type) (API_KEY : option jsstring)
    (remote : GoogleGenAI -> Request VoiceName -> Result GenerateContentResponse)
    (text : jsstring) (voice : VoiceName) (stylePrompt : jsstring)
    (apiKey : option jsstring) (d : jsstring) :
  outcome (generateSpeech API_KEY remote text voice stylePrompt apiKey)
  = Return (Some d) ->
  d <> []
  /\ exists key response part b,
       resolveCredential apiKey API_KEY = Some key
       /\ remote {| apiKey := key |} (speechRequest text voice stylePrompt)
          = Return response
       /\ firstPart response = Some part
       /\ inlineData part = Some b /\ data b = Some d.
Proof.
  rewrite generateSpeech_run.
  destruct (resolveCredential apiKey API_KEY) as [key|]; [|discriminate].
  cbv zeta. destruct (remote _ _) as [response|e] eqn:Hr; [|discriminate].
  cbn [outcome snd]. rewrite speechOfResponse_firstPart.
  destruct (firstPart response) as [part|] eqn:Hp; [|discriminate].
  intros H. injection H as H.
  destruct (inlinePayload_some part d H) as (Hne & b & Hb & Hd).
  split; [exact Hne|]. now exists key, response, part, b.
Qed.

(** A string returned by [generateSceneImage] always reads [data:], a
    non-empty MIME type, [;base64,], a non-empty payload, where the payload
    is the [data] of a part of the first candidate and the MIME type is the
    one of that part or [image/png]. *)
Theorem scene_image_result_shape (VoiceName : Type) (API_KEY : option jsstring)
    (remote : GoogleGenAI -> Request VoiceName -> Result GenerateContentResponse)
    (prompt : jsstring) (ref apiKey : option jsstring) (uri : jsstring) :
  outcome (generateSceneImage API_KEY remote prompt ref apiKey)
  = Return (Some uri) ->
  exists key response part b m p,
    resolveCredential apiKey API_KEY = Some key
    /\ remote {| apiKey := key |} (sceneImageRequest (sceneImageParts prompt ref))
       = Return response
    /\ In part (responseParts response)
    /\ inlineData part = Some b /\ data b = Some p
    /\ m = orElse (mimeType b) image_png
    /\ m <> [] /\ p <> []
    /\ uri = lit "data:" ++ m ++ lit ";base64," ++ p.
Proof.
  rewrite generateSceneImage_run.
  destruct (resolveCredential apiKey API_KEY) as [key|]; [|discriminate].
  cbv zeta. destruct (remote _ _) as [response|e] eqn:Hr; [|discriminate].
  cbn [outcome snd]. intros H. injection H as H.
  destruct (firstImage_some _ _ H) as (part & b & p & Hin & Hb & Hd & Hne & ->).
  exists key, response, part, b, (orElse (mimeType b) image_png), p.
  repeat split; try assumption; try reflexivity.
  now destruct (mimeType b) as [[|c m]|].
Qed.



(** ** The text handed to [JSON.parse] *)

Lemma startsWith_app_l (a b s : jsstring) :
  startsWith (a ++ b) s = true -> startsWith a s = true.
Proof.
  revert s. induction a as [|x a IH]; intros s; [reflexivity|].
  destruct s as [|c s]; [discriminate|]. simpl.
  intros H. apply andb_prop in H. destruct H as [Hx H].
  now rewrite Hx, (IH s H).
Qed.

Lemma startsWith_app_r (pat a b : jsstring) :
  startsWith pat a = true -> startsWith pat (a ++ b) = true.
Proof.
  revert a. induction pat as [|x pat IH]; intros a; [reflexivity|].
  destruct a as [|c a]; [discriminate|]. simpl.
  intros H. apply andb_prop in H. destruct H as [Hx H].
  now rewrite Hx, (IH a H).
Qed.

Lemma includes_app_l (a b s : jsstring) :
  includes (a ++ b) s = true -> includes a s = true.
Proof.
  induction s as [|c s IH]; simpl.
  - rewrite !orb_false_r. apply startsWith_app_l.
  - intros H. apply orb_prop in H. destruct H as [H|H].
    + now rewrite (startsWith_app_l a b (c :: s) H).
    + rewrite (IH H). apply orb_true_r.
Qed.

Lemma includes_behind (pat w s : jsstring) :
  includes pat s = true -> includes pat (w ++ s) = true.
Proof.
  intros H. induction w as [|c w IH]; [exact H|].
  cbn [app includes]. rewrite IH. apply orb_true_r.
Qed.

Lemma includes_before (pat a b : jsstring) :
  includes pat a = true -> includes pat (a ++ b) = true.
Proof.
  induction a as [|c a IH].
  - simpl. rewrite orb_false_r. intros H.
    destruct pat; [now destruct b|discriminate].
  - cbn [app includes]. intros H. apply orb_prop in H. destruct H as [H|H].
    + pose proof (startsWith_app_r pat (c :: a) b H) as E.
      cbn [app] in E. now rewrite E.
    + rewrite (IH H). apply orb_true_r.
Qed.

(** Where the pattern does not occur, the replacement changes nothing. *)
Lemma replaceAll_absent (pat rep s : jsstring) :
  includes pat s = false -> replaceAll pat rep s = s.
Proof.
  unfold replaceAll. induction s as [|c s IH]; [reflexivity|].
  cbn [includes]. intros H. apply orb_false_elim in H. destruct H as [Hs Hi].
  cbn [replaceFrom]. rewrite Hs. now rewrite (IH Hi).
Qed.

Lemma fence_not_rebuilt (c : N) (s : jsstring) :
  startsWith fence (c :: s) = false ->
  startsWith fence (c :: replaceFrom fence [] 0 s) = false.
Proof.
  destruct (N.eqb_spec backtick c) as [<-|Hc].
  2: { intros _. apply N.eqb_neq in Hc.
       change (startsWith fence (c :: replaceFrom fence [] 0 s))
         with ((backtick =? c)%N
               && startsWith (lit "``") (replaceFrom fence [] 0 s)).
       now rewrite Hc. }
  destruct s as [|d s]; [reflexivity|].
  destruct (N.eqb_spec backtick d) as [<-|Hd].
  2: { intros _. apply N.eqb_neq in Hd.
       change (replaceFrom fence [] 0 (d :: s))
         with (if (backtick =? d)%N && startsWith (lit "``") s
               then replaceFrom fence [] 2 s
               else d :: replaceFrom fence [] 0 s).
       rewrite Hd. cbn [andb].
       change (startsWith fence (backtick :: d :: replaceFrom fence [] 0 s))
         with ((backtick =? d)%N
               && startsWith [backtick] (replaceFrom fence [] 0 s)).
       now rewrite Hd. }
  destruct s as [|e s]; [reflexivity|].
  change (startsWith fence (backtick :: backtick :: e :: s))
    with ((backtick =? e)%N && true).
  rewrite andb_true_r. intros He.
  change (replaceFrom fence [] 0 (backtick :: e :: s))
    with (if (backtick =? e)%N && startsWith [backtick] s
          then replaceFrom fence [] 2 (e :: s)
          else backtick :: replaceFrom fence [] 0 (e :: s)).
  rewrite He. cbn [andb].
  change (replaceFrom fence [] 0 (e :: s))
    with (if (backtick =? e)%N && startsWith (lit "``") s
          then replaceFrom fence [] 2 s
          else e :: replaceFrom fence [] 0 s).
  rewrite He. cbn [andb].
  change (startsWith fence
            (backtick :: backtick :: e :: replaceFrom fence [] 0 s))
    with ((backtick =? e)%N && true).
  now rewrite He.
Qed.

(** After the second replacement no fence is left. *)
Lemma replaceFrom_fence_free (s : jsstring) :
  forall skip, includes fence (replaceFrom fence [] skip s) = false.
Proof.
  induction s as [|c s IH]; intros skip; [now destruct skip|].
  destruct skip as [|k]; [|exact (IH k)].
  change (replaceFrom fence [] 0 (c :: s))
    with (if startsWith fence (c :: s)
          then replaceFrom fence [] 2 s
          else c :: replaceFrom fence [] 0 s).
  destruct (startsWith fence (c :: s)) eqn:Hs; [exact (IH 2)|].
  cbn [includes]. now rewrite (fence_not_rebuilt c s Hs), (IH 0).
Qed.

Lemma trimStart_suffix (s : jsstring) : exists w, s = w ++ trimStart s.
Proof.
  induction s as [|c s [w IH]]; [now exists []|]. simpl.
  destruct (isTrimSpace c); [|now exists []].
  exists (c :: w). simpl. now rewrite <- IH.
Qed.

Lemma trimEnd_prefix (s : jsstring) : exists w, s = trimEnd s ++ w.
Proof.
  unfold trimEnd. destruct (trimStart_suffix (rev s)) as [w Hw].
  exists (rev w). rewrite <- rev_app_distr, <- Hw. now rewrite rev_involutive.
Qed.

Lemma trimStart_head (s r : jsstring) (c : N) :
  trimStart s = c :: r -> isTrimSpace c = false.
Proof.
  induction s as [|a s IH]; [discriminate|]. simpl.
  destruct (isTrimSpace a) eqn:Ha; [exact IH|].
  intros H. injection H as <- _. exact Ha.
Qed.

Lemma trimStart_snoc (l : jsstring) (c : N) :
  isTrimSpace c = false -> trimStart (l ++ [c]) = trimStart l ++ [c].
Proof.
  intros Hc. induction l as [|a l IH]; simpl.
  - now rewrite Hc.
  - destruct (isTrimSpace a); [exact IH|reflexivity].
Qed.

Lemma trimEnd_cons (c : N) (r : jsstring) :
  isTrimSpace c = false -> trimEnd (c :: r) = c :: trimEnd r.
Proof.
  intros Hc. unfold trimEnd. cbn [rev].
  rewrite (trimStart_snoc (rev r) c Hc), rev_app_distr. reflexivity.
Qed.

Lemma trim_tight (s : jsstring) : tight (trim s).
Proof.
  unfold trim. split.
  - intros c r H. destruct (trimStart s) as [|a t] eqn:Hs.
    + discriminate H.
    + pose proof (trimStart_head s t a Hs) as Ha.
      rewrite (trimEnd_cons a t Ha) in H. injection H as <- _. exact Ha.
  - intros r c H. unfold trimEnd in H.
    apply (f_equal (@rev N)) in H.
    rewrite rev_involutive, rev_app_distr in H. cbn [rev app] in H.
    exact (trimStart_head _ _ _ H).
Qed.

Lemma tight_trim (s : jsstring) : tight s -> trim s = s.
Proof.
  intros [Hh Hl]. unfold trim.
  assert (Hs : trimStart s = s).
  { destruct s as [|c r]; [reflexivity|]. simpl.
    now rewrite (Hh c r eq_refl). }
  rewrite Hs. unfold trimEnd.
  destruct (rev s) as [|c r] eqn:Hr.
  - apply (f_equal (@rev N)) in Hr. now rewrite rev_involutive in Hr.
  - assert (Hc : isTrimSpace c = false).
    { apply (Hl (rev r) c). apply (f_equal (@rev N)) in Hr.
      now rewrite rev_involutive in Hr. }
    simpl. rewrite Hc. rewrite <- Hr. apply rev_involutive.
Qed.

Lemma cleanFences_fence_free (s : jsstring) :
  includes fence (cleanFences s) = false.
Proof.
  unfold cleanFences, trim.
  set (x := replaceAll fence [] (replaceAll fence_json [] s)).
  assert (Hx : includes fence x = false) by apply replaceFrom_fence_free.
  destruct (includes fence (trimEnd (trimStart x))) eqn:H; [|reflexivity].
  destruct (trimEnd_prefix (trimStart x)) as [w Hw].
  destruct (trimStart_suffix x) as [w' Hw'].
  apply (includes_before fence _ w) in H. rewrite <- Hw in H.
  apply (includes_behind fence w') in H. rewrite <- Hw' in H. congruence.
Qed.

Lemma cleanFences_without_fence (s : jsstring) :
  includes fence s = false -> cleanFences s = trim s.
Proof.
  intros H. unfold cleanFences.
  assert (Hj : includes fence_json s = false).
  { destruct (includes fence_json s) eqn:E; [|reflexivity].
    change fence_json with (fence ++ lit "json") in E.
    apply includes_app_l in E. congruence. }
  now rewrite (replaceAll_absent fence_json [] s Hj), (replaceAll_absent fence [] s H).
Qed.

(** The text [generateStoryboard] hands to [JSON.parse] (line 95) never
    holds three backticks in a row and has no white space at either end;
    cleaning it a second time would change nothing. *)
Theorem cleaned_text_is_clean (s : jsstring) :
  includes fence (cleanFences s) = false
  /\ tight (cleanFences s)
  /\ cleanFences (cleanFences s) = cleanFences s.
Proof.
  split; [apply cleanFences_fence_free|]. split; [apply trim_tight|].
  rewrite (cleanFences_without_fence _ (cleanFences_fence_free s)).
  apply tight_trim. apply trim_tight.
Qed.

Lemma generateStoryboard_outcome (VoiceName : Type) (API_KEY : option jsstring)
    (remote : GoogleGenAI -> Request VoiceName -> Result GenerateContentResponse)
    (fullText : jsstring) (apiKey : option jsstring) (key : jsstring)
    (response : GenerateContentResponse) :
  resolveCredential apiKey API_KEY = Some key ->
  remote {| apiKey := key |} (storyboardRequest fullText) = Return response ->
  outcome (generateStoryboard API_KEY remote fullText apiKey)
  = storyboardOfResponse response.
Proof.
  intros Hk Hr. rewrite generateStoryboard_run, Hk. cbv zeta. rewrite Hr.
  now destruct (storyboardOfResponse response).
Qed.

(** A response text without three backticks in a row is only trimmed
    before it is parsed (single and double backticks inside it stay): the
    outcome of [generateStoryboard] is that of [JSON.parse] on the trimmed
    text. *)
Theorem text_without_fence_is_trimmed (VoiceName : Type)
    (API_KEY : option jsstring)
    (remote : GoogleGenAI -> Request VoiceName -> Result GenerateContentResponse)
    (fullText : jsstring) (apiKey : option jsstring) (key : jsstring)
    (cs : option (list Candidate)) (text : jsstring) :
  resolveCredential apiKey API_KEY = Some key ->
  remote {| apiKey := key |} (storyboardRequest fullText)
  = Return {| candidates := cs; response_text := Some text |} ->
  text <> [] -> includes fence text = false ->
  outcome (generateStoryboard API_KEY remote fullText apiKey)
  = JSON_parse (trim text).
Proof.
  intros Hk Hr Hne H.
  rewrite (generateStoryboard_outcome _ _ _ _ _ _ _ Hk Hr).
  unfold storyboardOfResponse. cbn [response_text].
  replace (orElse (Some text) (lit "[]")) with text
    by (destruct text; [congruence|reflexivity]).
  now rewrite (cleanFences_without_fence text H).
Qed.

Lemma allSpace_trim (w : jsstring) : allSpace w = true -> trim w = [].
Proof.
  intros Hw. rewrite <- (app_nil_r w). now rewrite (trim_space_l w [] Hw).
Qed.

Lemma allSpace_includes_fence (w : jsstring) :
  allSpace w = true -> includes fence w = false.
Proof.
  unfold allSpace. induction w as [|c w IH]; [reflexivity|].
  cbn [forallb includes]. intros H. apply andb_prop in H. destruct H as [Hc Hw].
  rewrite (IH Hw), orb_false_r.
  change (startsWith fence (c :: w))
    with ((backtick =? c)%N && startsWith (lit "``") w).
  destruct (N.eqb_spec backtick c) as [<-|]; [discriminate Hc|reflexivity].
Qed.

(** Blank answers in [generateStoryboard]. The empty text is replaced by
    the literal of the empty array and gives the empty storyboard, like an
    absent text. A text that is not empty but holds only white space, or
    only the two fences and white space, is not replaced: nothing is left
    of it after cleaning, [JSON.parse] throws, and the [SyntaxError] reaches
    the caller. *)
Theorem storyboard_blank_answers (VoiceName : Type) (API_KEY : option jsstring)
    (remote : GoogleGenAI -> Request VoiceName -> Result GenerateContentResponse)
    (fullText : jsstring) (apiKey : option jsstring) (key : jsstring)
    (cs : option (list Candidate)) (text : jsstring) :
  resolveCredential apiKey API_KEY = Some key ->
  remote {| apiKey := key |} (storyboardRequest fullText)
  = Return {| candidates := cs; response_text := Some text |} ->
  (text = [] ->
   outcome (generateStoryboard API_KEY remote fullText apiKey)
   = Return (JArray []))
  /\ (text <> [] -> allSpace text = true ->
      outcome (generateStoryboard API_KEY remote fullText apiKey)
      = Throw SyntaxError)
  /\ (forall w0 w1 w2 w3,
        text = wrapFences w0 w1 [] w2 w3 ->
        allSpace w0 = true -> allSpace w1 = true ->
        allSpace w2 = true -> allSpace w3 = true ->
        outcome (generateStoryboard API_KEY remote fullText apiKey)
        = Throw SyntaxError).
Proof.
  intros Hk Hr. rewrite (generateStoryboard_outcome _ _ _ _ _ _ _ Hk Hr).
  unfold storyboardOfResponse. cbn [response_text].
  split; [|split].
  - intros ->. reflexivity.
  - intros Hne Hw.
    replace (orElse (Some text) (lit "[]")) with text
      by (destruct text; [congruence|reflexivity]).
    rewrite (cleanFences_without_fence text (allSpace_includes_fence text Hw)).
    now rewrite (allSpace_trim text Hw).
  - intros w0 w1 w2 w3 -> H0 H1 H2 H3.
    replace (orElse (Some (wrapFences w0 w1 [] w2 w3)) (lit "[]"))
      with (wrapFences w0 w1 [] w2 w3) by (now destruct w0).
    now rewrite (cleanFences_wrap w0 w1 [] w2 w3 H0 H1 H2 H3).
Qed.

(** ** What the parse of a reference image drops *)

(** A MIME string with a parameter does not survive the way back: when a
    part's MIME type reads [m;param], the data-URI built from it, given
    back as reference image, is sent with [m] alone in the inline part of
    the request; the payload is kept. *)
Theorem mime_parameter_is_dropped (VoiceName : Type) (API_KEY : option jsstring)
    (remote : GoogleGenAI -> Request VoiceName -> Result GenerateContentResponse)
    (m param p prompt : jsstring) (apiKey : option jsstring) (key : jsstring) :
  m <> [] -> crossable m -> ~ In comma m -> ~ In comma param -> ~ In comma p ->
  p <> [] ->
  resolveCredential apiKey API_KEY = Some key ->
  firstImage [inlinePart (Some (m ++ semicolon :: param)) (Some p)]
  = Some (dataUri (Some (m ++ semicolon :: param)) p)
  /\ exists req rest,
       events (generateSceneImage API_KEY remote prompt
                 (Some (dataUri (Some (m ++ semicolon :: param)) p)) apiKey)
       = EvConstruct key :: EvGenerateContent {| apiKey := key |} req :: rest
       /\ contents req
          = ContentsOne
              {| parts := Some [inlinePart (Some m) (Some p);
                                textPart (styleInstruction ++ prompt)] |}.
Proof.
  intros Hne Hm Hc Hq Hp Hpe Hk. split.
  - destruct p; [congruence|reflexivity].
  - destruct (generateSceneImage_sends VoiceName API_KEY remote prompt
                (Some (dataUri (Some (m ++ semicolon :: param)) p))
                apiKey key Hk) as (req & rest & He & Hcont).
    exists req, rest. split; [exact He|]. rewrite Hcont.
    unfold sceneImageParts.
    rewrite (splitDataUri_parameter m param p Hne Hm Hc Hq Hp).
    now destruct m.
Qed.


(** ** Examples for the further properties *)

Lemma requests_carry_nonempty_key_witness :
  lit "k" <> [] /\ resolveCredential (Some (lit "k")) None = Some (lit "k").
Proof.
  apply (proj1 (requests_carry_nonempty_key unit None
           (answering (textResponse [])) (Some (lit "k"))
           {| apiKey := lit "k" |}
           (speechRequest (lit "Once upon a time.") tt (lit "Read slowly.")))
         (lit "Once upon a time.") tt (lit "Read slowly.")).
  right. left. reflexivity.
Defined.

Lemma thrown_errors_are_logged_witness :
  events (generateSceneImage None (rejecting (ApiError 500 []))
            (lit "a red fox in snow") None (Some (lit "k")))
  = failedRoundTrip (lit "k")
      (sceneImageRequest (sceneImageParts (lit "a red fox in snow") None))
      sceneImageLabel (ApiError 500 []).
Proof.
  destruct (thrown_errors_are_logged unit None (rejecting (ApiError 500 []))
              (Some (lit "k"))) as (_ & _ & Hi).
  pose proof (Hi (lit "a red fox in snow") None) as H. cbv zeta in H.
  destruct H as [Ht _].
  destruct (Ht (ApiError 500 []) eq_refl) as [(Hk & _)|(key & Hk & He)].
  - discriminate Hk.
  - injection Hk as <-. exact He.
Defined.

Lemma character_false_only_from_service_witness :
  exists json,
    JSON_parse (lit "{}") = Return json
    /\ toBoolean (hasCharacterField json) = false.
Proof.
  destruct (character_false_only_from_service unit None
              (answering (textResponse (lit "{}")))
              (lit "data:image/png;base64,AAAA") (Some (lit "k")) eq_refl)
    as (key & response & text & json & _ & Hr & Ht & Hp & _ & Hb & _).
  injection Hr as <-. injection Ht as <-.
  exists json. now split.
Defined.

Lemma character_swallowed_errors_witness :
  outcome (checkImageForCharacter None (answering (textResponse (lit "oops")))
             (lit "data:image/png;base64,AAAA") (Some (lit "k")))
  = Return true.
Proof.
  apply (character_swallowed_errors unit None
           (answering (textResponse (lit "oops")))
           (lit "data:image/png;base64,AAAA") (Some (lit "k"))
           characterLabel SyntaxError).
  right. right. left. reflexivity.
Defined.



Lemma speech_result_is_nonempty_witness :
  lit "UklGRg==" <> []
  /\ exists key response part b,
       resolveCredential (Some (lit "k")) None = Some key
       /\ answering (partsResponse [inlinePart None (Some (lit "UklGRg=="))])
            {| apiKey := key |}
            (speechRequest (lit "Once upon a time.") tt (lit "Read slowly."))
          = Return response
       /\ firstPart response = Some part
       /\ inlineData part = Some b /\ data b = Some (lit "UklGRg==").
Proof.
  apply (speech_result_is_nonempty unit None
           (answering (partsResponse [inlinePart None (Some (lit "UklGRg=="))]))
           (lit "Once upon a time.") tt (lit "Read slowly.") (Some (lit "k"))
           (lit "UklGRg==")).
  reflexivity.
Defined.

Lemma scene_image_result_shape_witness :
  exists m p,
    m <> [] /\ p <> []
    /\ lit "data:image/png;base64,QUJD" = lit "data:" ++ m ++ lit ";base64," ++ p.
Proof.
  destruct (scene_image_result_shape unit None
              (answering (partsResponse [inlinePart None (Some (lit "QUJD"))]))
              (lit "a red fox in snow") None (Some (lit "k"))
              (lit "data:image/png;base64,QUJD") eq_refl)
    as (key & response & part & b & m & p & _ & _ & _ & _ & _ & _ & Hm & Hp & Hu).
  exists m, p. now repeat split.
Defined.



Lemma text_without_fence_is_trimmed_witness :
  outcome (generateStoryboard None
             (answering (textResponse (lit "  [] ")))
             (lit "The hero drew his sword.") (Some (lit "k")))
  = JSON_parse (trim (lit "  [] ")).
Proof.
  apply (text_without_fence_is_trimmed unit None
           (answering (textResponse (lit "  [] ")))
           (lit "The hero drew his sword.") (Some (lit "k")) (lit "k")
           None (lit "  [] "));
    solve [discriminate | reflexivity].
Defined.

Lemma storyboard_blank_answers_witness :
  outcome (generateStoryboard None (answering (textResponse (lit "   ")))
             (lit "The hero drew his sword.") (Some (lit "k")))
  = Throw SyntaxError.
Proof.
  apply (proj1 (proj2 (storyboard_blank_answers unit None
           (answering (textResponse (lit "   ")))
           (lit "The hero drew his sword.") (Some (lit "k")) (lit "k")
           None (lit "   ") eq_refl eq_refl)));
    solve [discriminate | reflexivity].
Defined.

Lemma mime_parameter_is_dropped_witness :
  firstImage [inlinePart (Some (lit "audio/L16;codec=pcm")) (Some (lit "QUJD"))]
  = Some (lit "data:audio/L16;codec=pcm;base64,QUJD")
  /\ exists req rest,
       events (generateSceneImage None (rejecting TypeError) (lit "the fox runs")
                 (Some (lit "data:audio/L16;codec=pcm;base64,QUJD")) (Some (lit "k")))
       = EvConstruct (lit "k") :: EvGenerateContent {| apiKey := lit "k" |} req :: rest
       /\ contents req
          = ContentsOne
              {| parts := Some [inlinePart (Some (lit "audio/L16")) (Some (lit "QUJD"));
                                textPart (styleInstruction ++ lit "the fox runs")] |}.
Proof.
  apply (mime_parameter_is_dropped unit None (rejecting TypeError)
           (lit "audio/L16") (lit "codec=pcm") (lit "QUJD") (lit "the fox runs")
           (Some (lit "k")) (lit "k")).
  - discriminate.
  - apply crossableb_sound. reflexivity.
  - apply occurs_sound. reflexivity.
  - apply occurs_sound. reflexivity.
  - apply occurs_sound. reflexivity.
  - discriminate.
  - reflexivity.
Defined.

